(** * saramaprom: the exporter bridging go-metrics to Prometheus

    A shallow embedding of [exporter.go].

    - Go strings are byte strings and are modelled by [string]; Go maps
      with string keys by stdpp's [gmap]; [float64] by the binary64
      primitive floats.
    - Label sets are Go maps, hence references: the model keeps the map
      objects in a heap and passes locations around.
    - The registerer is an interface of the exporter library: it is a
      type class here, and the statements hold for every instance.  The
      collectors handed to [Register] are logged in [calls].
    - A call returns [nil], returns an error or panics ([MustRegister]).
    - The reader/writer lock [mu] is left out: the model is sequential. *)

From Stdlib Require Import ZArith Ascii Floats.
From Stdlib Require String.
From stdpp Require Import gmap strings list fin_maps.

Set Warnings "-inexact-float".

(** ** Byte strings *)

(** [s[:n]] *)
Fixpoint slice_to (s : string) (n : nat) : string :=
  match n, s with
  | S n', String a s' => String a (slice_to s' n')
  | _, _ => EmptyString
  end.

(** [s[n:]] *)
Fixpoint slice_from (s : string) (n : nat) : string :=
  match n, s with
  | S n', String _ s' => slice_from s' n'
  | _, _ => s
  end.

(** [strings.HasPrefix s p] *)
Fixpoint HasPrefix (s p : string) {struct p} : bool :=
  match p, s with
  | EmptyString, _ => true
  | String a p', String b s' => if decide (a = b) then HasPrefix s' p' else false
  | String _ _, EmptyString => false
  end.

(** [strings.Index s substr]: the byte index of the first instance of
    [substr] in [s], or -1 when there is none. *)
Fixpoint Index (s substr : string) : Z :=
  if HasPrefix s substr then 0%Z
  else match s with
       | EmptyString => (-1)%Z
       | String _ s' =>
           let i := Index s' substr in
           if (i <? 0)%Z then (-1)%Z else (i + 1)%Z
       end.

(** [s] contains [m] somewhere. *)
Definition contains (s m : string) : Prop :=
  ∃ pre suf, s = pre +:+ m +:+ suf.

(** ** sanitizeName *)

Definition byte_le (a b : ascii) : bool := (N_of_ascii a <=? N_of_ascii b)%N.

Definition allowed (c : ascii) : bool :=
  (byte_le "a" c && byte_le c "z") || (byte_le "A" c && byte_le c "Z")
  || bool_decide (c = "_"%char) || bool_decide (c = ":"%char)
  || (byte_le "0" c && byte_le c "9").

Fixpoint sanitizeName (key : string) : string :=
  match key with
  | EmptyString => EmptyString
  | String c rest =>
      String (if allowed c then c else "_"%char) (sanitizeName rest)
  end.

(** The character class [a-zA-Z0-9_:] written out. *)
Definition name_chars : list ascii :=
  String.list_ascii_of_string
    "abcdefghijklmnopqrstuvwxyzABCDEFGHIJKLMNOPQRSTUVWXYZ0123456789_:".

Fixpoint bytes (s : string) : list ascii :=
  match s with
  | EmptyString => []
  | String c s' => c :: bytes s'
  end.

(** ** parseMetricName *)

Definition brokerMarker : string := "-for-broker-".
Definition topicMarker : string := "-for-topic-".

Definition parseMetricName (name : string) : string * string * string :=
  let i := Index name brokerMarker in
  if (0 <=? i)%Z then
    (slice_to name (Z.to_nat i),
     slice_from name (Z.to_nat i + String.length brokerMarker), "")
  else
    let i := Index name topicMarker in
    if (0 <=? i)%Z then
      (slice_to name (Z.to_nat i), "",
       slice_from name (Z.to_nat i + String.length topicMarker))
    else (name, "", "").

(** ** Numeric conversions *)

(** [float64(x)] for an [int64] [x]: the nearest binary64 value. *)
Definition float64_of_int64 (x : Z) : float :=
  SF2Prim (binary_normalize prec emax x 0 false).

(** [uint64(x)] for an [int64] [x]: two's complement wrap-around. *)
Definition uint64_of_int64 (x : Z) : Z := (x mod 2 ^ 64)%Z.

(** [uint64(f)] for a [float64] [f]: the fraction is discarded.  Go leaves
    the result open for NaN, the infinities and values out of range; they
    are given a value here only to keep the function total. *)
Definition uint64_of_float64 (f : float) : Z :=
  match Prim2SF f with
  | S754_finite s m e =>
      let v := Z.shiftl (Z.pos m) e in
      ((if s then - v else v) mod 2 ^ 64)%Z
  | _ => 0%Z
  end.

(** ** The upstream registry (go-metrics), through its read interface *)

Module metrics.

(** What [Histogram.Snapshot()] exposes: [Count()], [Sum()],
    [Sample().Values()] and the quantile at a boundary
    ([Percentiles(ps)] is that quantile at each element of [ps]). *)
Record HistogramSnapshot := {
  hs_Count : Z;
  hs_Sum : Z;
  hs_Values : list Z;
  hs_Percentile : float → float;
}.

Record TimerSnapshot := {
  ts_Count : Z;
  ts_Sum : Z;
  ts_Percentile : float → float;
  ts_Rate1 : float;
}.

(** The dynamic kinds the type switches of the exporter tell apart; the
    last one stands for every other kind a registry may hold. *)
Inductive Metric :=
| Counter (count : Z)
| Gauge (value : Z)
| GaugeFloat64 (value : float)
| Histogram (snapshot : HistogramSnapshot)
| Meter (rate1 : float)
| Timer (snapshot : TimerSnapshot)
| Healthcheck.

End metrics.

(** ** The exporter library (client_golang), through the calls made to it *)

Module prometheus.

Record GaugeOpts := {
  Namespace : string;
  Subsystem : string;
  Name : string;
  Help : string;
}.

Record GaugeVec := {
  gv_opts : GaugeOpts;
  gv_labelNames : list string;
}.

Definition NewGaugeVec (opts : GaugeOpts) (labelNames : list string) : GaugeVec :=
  {| gv_opts := opts; gv_labelNames := labelNames |}.

(** The child of a vector for one assignment of label values. *)
Record Gauge := {
  g_vec : GaugeVec;
  g_labels : gmap string string;
}.

(** [g.With(labels)]: the child of [g] for the values in [labels].  The
    library panics when the keys of [labels] are not the label names of
    the vector; only the binding is modelled. *)
Definition With (g : GaugeVec) (labels : gmap string string) : Gauge :=
  {| g_vec := g; g_labels := labels |}.

(** [NewDesc(BuildFQName(namespace, subsystem, name), help, nil, constLabels)]:
    the three parts of the name are kept apart. *)
Record Desc := {
  d_namespace : string;
  d_subsystem : string;
  d_name : string;
  d_help : string;
  d_constLabels : gmap string string;
}.

(** The observation [NewConstHistogram] builds. *)
Record constHistogram := {
  h_desc : Desc;
  h_count : Z;
  h_sum : float;
  h_buckets : list (float * Z);
}.

(** What can be handed to, or handed back by, a registerer: a gauge
    vector, the exporter's [customCollector] stored under a key, or a
    collector of any other concrete kind. *)
Inductive Collector :=
| GaugeVecC (g : GaugeVec)
| CustomCollectorC (key : string)
| OtherCollector (id : string).

End prometheus.

(** Go error values met in this file. *)
Inductive error :=
| AlreadyRegisteredError (ExistingCollector NewCollector : prometheus.Collector)
| ErrNotGaugeVec
| ErrUnexpectedMetricType
| ErrLibrary (msg : string).

(** How a call ends: it returns [nil], returns an error, or panics. *)
Inductive result :=
| OK
| Err (e : error)
| Panic (e : error).

(** [prometheus.Registerer]: [Register] on a registerer in state [r]. *)
Class Registerer (R : Type) :=
  Register : R → prometheus.Collector → R * option error.

(** The library's validation of a descriptor, which makes
    [NewConstHistogram] fail. *)
Class DescCheck := descErr : prometheus.Desc → option error.

Definition NewConstHistogram `{DescCheck} (desc : prometheus.Desc) (count : Z)
    (sum : float) (buckets : list (float * Z)) : prometheus.constHistogram + error :=
  match descErr desc with
  | Some e => inr e
  | None =>
      inl {| prometheus.h_desc := desc; prometheus.h_count := count;
             prometheus.h_sum := sum; prometheus.h_buckets := buckets |}
  end.

(** A Go [map[float64]uint64]: keys are compared with [==]. *)
Fixpoint bucket_store (k : float) (v : Z) (m : list (float * Z)) : list (float * Z) :=
  match m with
  | [] => [(k, v)]
  | (k', v') :: m' =>
      if PrimFloat.eqb k' k then (k, v) :: m' else (k', v') :: bucket_store k v m'
  end.

(** ** The exporter *)

(** Label maps are Go maps, that is, references: [loc] names a map object
    and [heap] below holds the objects. *)
Definition loc := positive.

(** The fields of [Options] this file reads.  [Labels] is taken to be an
    allocated map. *)
Record Options := {
  Namespace : string;
  Subsystem : string;
  Labels : loc;
  Debug : bool;
}.

Record customCollector := {
  metric : option prometheus.constHistogram;
}.

Definition newCustomCollector : customCollector := {| metric := None |}.

(** [Collect]: what the collector sends on the channel at a scrape. *)
Definition Collect (c : customCollector) : list prometheus.constHistogram :=
  match metric c with
  | Some val => [val]
  | None => []
  end.

Inductive logline :=
| LogUpdate
| LogSkip (name : string).

(** The struct [exporter], followed by what its methods reach through
    references: the label map objects ([heap]), the values of the bound
    gauges ([series]), the collectors passed to [Register] so far
    ([calls]) and the debug output ([stdout]). *)
Record exporter (R : Type) := {
  opt : Options;
  registry : list (string * metrics.Metric);
  promRegistry : R;
  gauges : gmap string prometheus.Gauge;
  customMetrics : gmap string customCollector;
  histogramBuckets : list float;
  timerBuckets : list float;
  labelsMap : gmap string loc;
  metricsNameMap : gmap string bool;
  heap : gmap loc (gmap string string);
  series : list (prometheus.Gauge * float);
  calls : list prometheus.Collector;
  stdout : list logline;
}.

Arguments opt {R}.
Arguments registry {R}.
Arguments promRegistry {R}.
Arguments gauges {R}.
Arguments customMetrics {R}.
Arguments histogramBuckets {R}.
Arguments timerBuckets {R}.
Arguments labelsMap {R}.
Arguments metricsNameMap {R}.
Arguments heap {R}.
Arguments series {R}.
Arguments calls {R}.
Arguments stdout {R}.

Section Exporter.
Context {R : Type} {HR : Registerer R} {HD : DescCheck}.

Definition set_registry (v : list (string * metrics.Metric)) (c : exporter R) :=
  {| opt := opt c; registry := v; promRegistry := promRegistry c;
     gauges := gauges c; customMetrics := customMetrics c;
     histogramBuckets := histogramBuckets c; timerBuckets := timerBuckets c;
     labelsMap := labelsMap c; metricsNameMap := metricsNameMap c;
     heap := heap c; series := series c; calls := calls c; stdout := stdout c |}.

Definition set_promRegistry (v : R) (c : exporter R) :=
  {| opt := opt c; registry := registry c; promRegistry := v;
     gauges := gauges c; customMetrics := customMetrics c;
     histogramBuckets := histogramBuckets c; timerBuckets := timerBuckets c;
     labelsMap := labelsMap c; metricsNameMap := metricsNameMap c;
     heap := heap c; series := series c; calls := calls c; stdout := stdout c |}.

Definition set_gauges (v : gmap string prometheus.Gauge) (c : exporter R) :=
  {| opt := opt c; registry := registry c; promRegistry := promRegistry c;
     gauges := v; customMetrics := customMetrics c;
     histogramBuckets := histogramBuckets c; timerBuckets := timerBuckets c;
     labelsMap := labelsMap c; metricsNameMap := metricsNameMap c;
     heap := heap c; series := series c; calls := calls c; stdout := stdout c |}.

Definition set_customMetrics (v : gmap string customCollector) (c : exporter R) :=
  {| opt := opt c; registry := registry c; promRegistry := promRegistry c;
     gauges := gauges c; customMetrics := v;
     histogramBuckets := histogramBuckets c; timerBuckets := timerBuckets c;
     labelsMap := labelsMap c; metricsNameMap := metricsNameMap c;
     heap := heap c; series := series c; calls := calls c; stdout := stdout c |}.

Definition set_labelsMap (v : gmap string loc) (c : exporter R) :=
  {| opt := opt c; registry := registry c; promRegistry := promRegistry c;
     gauges := gauges c; customMetrics := customMetrics c;
     histogramBuckets := histogramBuckets c; timerBuckets := timerBuckets c;
     labelsMap := v; metricsNameMap := metricsNameMap c;
     heap := heap c; series := series c; calls := calls c; stdout := stdout c |}.

Definition set_metricsNameMap (v : gmap string bool) (c : exporter R) :=
  {| opt := opt c; registry := registry c; promRegistry := promRegistry c;
     gauges := gauges c; customMetrics := customMetrics c;
     histogramBuckets := histogramBuckets c; timerBuckets := timerBuckets c;
     labelsMap := labelsMap c; metricsNameMap := v;
     heap := heap c; series := series c; calls := calls c; stdout := stdout c |}.

Definition set_heap (v : gmap loc (gmap string string)) (c : exporter R) :=
  {| opt := opt c; registry := registry c; promRegistry := promRegistry c;
     gauges := gauges c; customMetrics := customMetrics c;
     histogramBuckets := histogramBuckets c; timerBuckets := timerBuckets c;
     labelsMap := labelsMap c; metricsNameMap := metricsNameMap c;
     heap := v; series := series c; calls := calls c; stdout := stdout c |}.

Definition set_series (v : list (prometheus.Gauge * float)) (c : exporter R) :=
  {| opt := opt c; registry := registry c; promRegistry := promRegistry c;
     gauges := gauges c; customMetrics := customMetrics c;
     histogramBuckets := histogramBuckets c; timerBuckets := timerBuckets c;
     labelsMap := labelsMap c; metricsNameMap := metricsNameMap c;
     heap := heap c; series := v; calls := calls c; stdout := stdout c |}.

Definition set_calls (v : list prometheus.Collector) (c : exporter R) :=
  {| opt := opt c; registry := registry c; promRegistry := promRegistry c;
     gauges := gauges c; customMetrics := customMetrics c;
     histogramBuckets := histogramBuckets c; timerBuckets := timerBuckets c;
     labelsMap := labelsMap c; metricsNameMap := metricsNameMap c;
     heap := heap c; series := series c; calls := v; stdout := stdout c |}.

Definition set_stdout (v : list logline) (c : exporter R) :=
  {| opt := opt c; registry := registry c; promRegistry := promRegistry c;
     gauges := gauges c; customMetrics := customMetrics c;
     histogramBuckets := histogramBuckets c; timerBuckets := timerBuckets c;
     labelsMap := labelsMap c; metricsNameMap := metricsNameMap c;
     heap := heap c; series := series c; calls := calls c; stdout := v |}.

(** An exporter before its first cycle: every map is empty. *)
Definition newExporter (o : Options) (reg : list (string * metrics.Metric))
    (r : R) (base : gmap string string) (hb tb : list float) : exporter R :=
  {| opt := o; registry := reg; promRegistry := r;
     gauges := ∅; customMetrics := ∅;
     histogramBuckets := hb; timerBuckets := tb;
     labelsMap := ∅; metricsNameMap := ∅;
     heap := {[ Labels o := base ]}; series := []; calls := []; stdout := [] |}.

(** *** Map objects *)

(** The contents of the map a reference points to; the nil map reads as
    the empty map. *)
Definition deref (c : exporter R) (labels : option loc) : gmap string string :=
  match labels with
  | Some l => default ∅ (heap c !! l)
  | None => ∅
  end.

(** [labels[k] = v] *)
Definition map_store (labels : loc) (k v : string) (c : exporter R) : exporter R :=
  set_heap (<[labels := <[k := v]> (deref c (Some labels))]> (heap c)) c.

(** *** Bound gauges *)

Global Instance GaugeOpts_eq_dec : EqDecision prometheus.GaugeOpts.
Proof. solve_decision. Defined.
Global Instance GaugeVec_eq_dec : EqDecision prometheus.GaugeVec.
Proof. solve_decision. Defined.
Global Instance Gauge_eq_dec : EqDecision prometheus.Gauge.
Proof. solve_decision. Defined.

(** [g.Set(val)] *)
Fixpoint gauge_set (g : prometheus.Gauge) (val : float)
    (s : list (prometheus.Gauge * float)) : list (prometheus.Gauge * float) :=
  match s with
  | [] => [(g, val)]
  | (g', v') :: s' =>
      if decide (g' = g) then (g', val) :: s' else (g', v') :: gauge_set g val s'
  end.

(** The value a scrape reads from a bound gauge. *)
Fixpoint gauge_get (g : prometheus.Gauge)
    (s : list (prometheus.Gauge * float)) : option float :=
  match s with
  | [] => None
  | (g', v') :: s' => if decide (g' = g) then Some v' else gauge_get g s'
  end.

Definition Set_ (g : prometheus.Gauge) (val : float) (c : exporter R) : exporter R :=
  set_series (gauge_set g val (series c)) c.

(** The value exported for a raw name, through its bound handle. *)
Definition gauge_value (c : exporter R) (name : string) : option float :=
  g ← gauges c !! name; gauge_get g (series c).

(** *** Calls to the registerer *)

Definition do_Register (x : prometheus.Collector) (c : exporter R) : exporter R * option error :=
  let '(r, err) := Register (promRegistry c) x in
  (set_calls (calls c ++ [x]) (set_promRegistry r c), err).

Definition createKey (c : exporter R) (name : string) : string :=
  Namespace (opt c) +:+ "_" +:+ Subsystem (opt c) +:+ "_" +:+ name.

Definition println (l : logline) (c : exporter R) : exporter R :=
  set_stdout (stdout c ++ [l]) c.

(** *** metricNameAndLabels *)

Definition metricNameAndLabels (metricName : string) (c : exporter R)
    : exporter R * (string * option loc * bool) :=
  let '(newName, broker, topic) := parseMetricName metricName in
  if bool_decide (broker = "") && bool_decide (topic = "") then
    (c, (newName, None, true))
  else
    match labelsMap c !! metricName with
    | Some labels => (c, (newName, Some labels, false))
    | None =>
        let labels := Labels (opt c) in
        let c := if bool_decide (broker ≠ "")
                 then map_store labels "broker" broker c else c in
        let c := if bool_decide (topic ≠ "")
                 then map_store labels "topic" topic c else c in
        let c := set_labelsMap (<[metricName := labels]> (labelsMap c)) c in
        (c, (newName, Some labels, false))
    end.

(** *** gaugeFromNameAndValue *)

(** Go ranges over a map in an unspecified order; [labelNames] below takes
    the order of [map_to_list], and no statement depends on it. *)

(** [c.gauges[name] = g.With(labels)] followed by the [Set] that ends
    the function. *)
Definition bind_and_set (name : string) (g : prometheus.GaugeVec)
    (labels : option loc) (val : float) (c : exporter R) : exporter R :=
  let h := prometheus.With g (deref c labels) in
  Set_ h val (set_gauges (<[name := h]> (gauges c)) c).

(** The vector [gaugeFromNameAndValue] builds with [NewGaugeVec]. *)
Definition gaugeVecFor (c : exporter R) (shortName : string)
    (labelNames : list string) : prometheus.GaugeVec :=
  prometheus.NewGaugeVec
    {| prometheus.Namespace := sanitizeName (Namespace (opt c));
       prometheus.Subsystem := sanitizeName (Subsystem (opt c));
       prometheus.Name := sanitizeName shortName;
       prometheus.Help := shortName |} labelNames.

Definition gaugeFromNameAndValue (name : string) (val : float) (c : exporter R)
    : exporter R * result :=
  let '(c, (shortName, labels, skip)) := metricNameAndLabels name c in
  if skip then
    ((if Debug (opt c) then println (LogSkip name) c else c), OK)
  else
    match gauges c !! name with
    | Some h => (Set_ h val c, OK)
    | None =>
        let labelNames := (map_to_list (deref c labels)).*1 in
        let metricName := sanitizeName shortName in
        if default false (metricsNameMap c !! metricName) then (c, OK)
        else
          let c := set_metricsNameMap (<[metricName := true]> (metricsNameMap c)) c in
          let g := gaugeVecFor c shortName labelNames in
          let '(c, err) := do_Register (prometheus.GaugeVecC g) c in
          match err with
          | Some (AlreadyRegisteredError existing _) =>
              match existing with
              | prometheus.GaugeVecC g' => (bind_and_set name g' labels val c, OK)
              | _ => (c, Err ErrNotGaugeVec)
              end
          | Some err => (c, Err err)
          | None => (bind_and_set name g labels val c, OK)
          end
    end.

(** *** histogramFromNameAndMetric *)

Definition bucketVals (buckets : list float) (percentile : float → float)
    : list (float * Z) :=
  foldl (λ m bucket, bucket_store bucket (uint64_of_float64 (percentile bucket)) m)
        [] buckets.

(** The descriptor [histogramFromNameAndMetric] builds with [NewDesc]. *)
Definition descFor (c : exporter R) (metricName shortName : string)
    (labels : option loc) : prometheus.Desc :=
  {| prometheus.d_namespace := sanitizeName (Namespace (opt c));
     prometheus.d_subsystem := sanitizeName (Subsystem (opt c));
     prometheus.d_name := metricName;
     prometheus.d_help := sanitizeName shortName;
     prometheus.d_constLabels := deref c labels |}.

Definition histogramFromNameAndMetric (name : string) (goMetric : metrics.Metric)
    (buckets : list float) (c : exporter R) : exporter R * result :=
  let key := createKey c name in
  let '(c, panicked) :=
    match customMetrics c !! key with
    | Some _ => (c, None)
    | None =>
        (* MustRegister, then the store under [key] *)
        let '(c, err) := do_Register (prometheus.CustomCollectorC key) c in
        match err with
        | Some e => (c, Some e)
        | None => (set_customMetrics (<[key := newCustomCollector]> (customMetrics c)) c, None)
        end
    end in
  match panicked with
  | Some e => (c, Panic e)
  | None =>
      let snap :=
        match goMetric with
        | metrics.Histogram s =>
            Some (metrics.hs_Percentile s, uint64_of_int64 (metrics.hs_Count s),
                  float64_of_int64 (metrics.hs_Sum s), "histogram")
        | metrics.Timer s =>
            Some (metrics.ts_Percentile s, uint64_of_int64 (metrics.ts_Count s),
                  float64_of_int64 (metrics.ts_Sum s), "timer")
        | _ => None
        end in
      match snap with
      | None => (c, Err ErrUnexpectedMetricType)
      | Some (percentile, count, sum, typeName) =>
          let bv := bucketVals buckets percentile in
          let '(c, (name', labels, skip)) := metricNameAndLabels name c in
          if skip then (c, OK)
          else
            let metricName := sanitizeName name' +:+ "_" +:+ typeName in
            if default false (metricsNameMap c !! metricName) then (c, OK)
            else
              let c := set_metricsNameMap (<[metricName := true]> (metricsNameMap c)) c in
              let desc := descFor c metricName name' labels in
              match NewConstHistogram desc count sum bv with
              | inr err => (c, Err err)
              | inl hist =>
                  (set_customMetrics (<[key := {| metric := Some hist |}]> (customMetrics c)) c, OK)
              end
      end
  end.

(** *** update *)

(** The callback handed to [registry.Each]; [err] is the variable of
    [update] the callback assigns to. *)
Definition each_callback (name : string) (i : metrics.Metric)
    (c : exporter R) (err : result) : exporter R * result :=
  match i with
  | metrics.Counter count => gaugeFromNameAndValue name (float64_of_int64 count) c
  | metrics.Gauge value => gaugeFromNameAndValue name (float64_of_int64 value) c
  | metrics.GaugeFloat64 value => gaugeFromNameAndValue name value c
  | metrics.Histogram s =>
      let '(c, err) :=
        match last (metrics.hs_Values s) with
        | Some lastSample => gaugeFromNameAndValue name (float64_of_int64 lastSample) c
        | None => (c, err)
        end in
      match err with
      | OK => histogramFromNameAndMetric name i (histogramBuckets c) c
      | _ => (c, err)
      end
  | metrics.Meter rate1 => gaugeFromNameAndValue name rate1 c
  | metrics.Timer s =>
      let '(c, err) := gaugeFromNameAndValue name (metrics.ts_Rate1 s) c in
      match err with
      | OK => histogramFromNameAndMetric name i (timerBuckets c) c
      | _ => (c, err)
      end
  | metrics.Healthcheck => (c, err)
  end.

(** [registry.Each]: the callback runs once per entry, in the order the
    registry yields them; only a panic unwinds the iteration. *)
Fixpoint Each (l : list (string * metrics.Metric)) (c : exporter R) (err : result)
    : exporter R * result :=
  match l with
  | [] => (c, err)
  | (name, i) :: l' =>
      match each_callback name i c err with
      | (c', Panic e) => (c', Panic e)
      | (c', err') => Each l' c' err'
      end
  end.

Definition update (c : exporter R) : exporter R * result :=
  let c := if Debug (opt c) then println LogUpdate c else c in
  Each (registry c) c OK.

(** *** The life of an exporter *)

(** What is done to an exporter over the life of the process: the two
    publish operations, and whole cycles over the registry as it stands
    at that time. *)
Inductive op :=
| PublishGauge (name : string) (val : float)
| PublishHistogram (name : string) (goMetric : metrics.Metric) (buckets : list float)
| Cycle (reg : list (string * metrics.Metric)).

Definition step (o : op) (c : exporter R) : exporter R * result :=
  match o with
  | PublishGauge name val => gaugeFromNameAndValue name val c
  | PublishHistogram name goMetric buckets =>
      histogramFromNameAndMetric name goMetric buckets c
  | Cycle reg => update (set_registry reg c)
  end.

(** Errors are returned to the caller and the process goes on; a panic
    ends it. *)
Fixpoint run (ops : list op) (c : exporter R) : exporter R :=
  match ops with
  | [] => c
  | o :: ops' =>
      match step o c with
      | (c', Panic _) => c'
      | (c', _) => run ops' c'
      end
  end.

(** *** Vocabulary of the statements *)

(** Membership in the name-dedup set: [c.metricsNameMap[n]]. *)
Definition seen (c : exporter R) (n : string) : bool :=
  default false (metricsNameMap c !! n).

(** The [Name] of a gauge vector handed to [Register]. *)
Definition vecName (x : prometheus.Collector) : option string :=
  match x with
  | prometheus.GaugeVecC g => Some (prometheus.Name (prometheus.gv_opts g))
  | _ => None
  end.

Definition vecNames (l : list prometheus.Collector) : list string := omap vecName l.

(** Every cached label set is the configured map object. *)
Definition aliased (c : exporter R) : Prop :=
  ∀ n l, labelsMap c !! n = Some l → l = Labels (opt c).

(** Everything but the label cache and the map objects is out of reach
    of the resolver. *)
Definition same_but_labels (c c' : exporter R) : Prop :=
  opt c' = opt c ∧ registry c' = registry c ∧ promRegistry c' = promRegistry c ∧
  gauges c' = gauges c ∧ customMetrics c' = customMetrics c ∧
  histogramBuckets c' = histogramBuckets c ∧ timerBuckets c' = timerBuckets c ∧
  metricsNameMap c' = metricsNameMap c ∧ series c' = series c ∧
  calls c' = calls c ∧ stdout c' = stdout c.

(** The observation a collector stored under [key] holds. *)
Definition held (c : exporter R) (key : string) : option prometheus.constHistogram :=
  customMetrics c !! key ≫= metric.

(** The gauge vectors registered so far have distinct names, all of them
    recorded in the name-dedup set. *)
Definition registered_once (c : exporter R) : Prop :=
  NoDup (vecNames (calls c)) ∧ ∀ n, n ∈ vecNames (calls c) → seen c n = true.

(** The suffix [histogramFromNameAndMetric] gives to the name of a metric
    of a kind it accepts. *)
Definition typeNameOf (goMetric : metrics.Metric) : option string :=
  match goMetric with
  | metrics.Histogram _ => Some "histogram"
  | metrics.Timer _ => Some "timer"
  | _ => None
  end.

(** The value a metric publishes as a gauge whatever came before it in
    the cycle, for the kinds that have one. *)
Definition gauge_sample (i : metrics.Metric) : option float :=
  match i with
  | metrics.Counter count => Some (float64_of_int64 count)
  | metrics.Gauge value => Some (float64_of_int64 value)
  | metrics.GaugeFloat64 value => Some value
  | metrics.Meter rate1 => Some rate1
  | _ => None
  end.

End Exporter.

(** ** Registerers to run scenarios on *)

(** [prometheus.BuildFQName] *)
Definition BuildFQName (namespace subsystem name : string) : string :=
  if bool_decide (name = "") then ""
  else if bool_decide (namespace ≠ "") && bool_decide (subsystem ≠ "")
       then namespace +:+ "_" +:+ subsystem +:+ "_" +:+ name
  else if bool_decide (namespace ≠ "") then namespace +:+ "_" +:+ name
  else if bool_decide (subsystem ≠ "") then subsystem +:+ "_" +:+ name
  else name.

(** The name a collector describes itself under; a [customCollector]
    describes nothing. *)
Definition fqName (x : prometheus.Collector) : option string :=
  match x with
  | prometheus.GaugeVecC g =>
      let o := prometheus.gv_opts g in
      Some (BuildFQName (prometheus.Namespace o) (prometheus.Subsystem o) (prometheus.Name o))
  | prometheus.CustomCollectorC _ => None
  | prometheus.OtherCollector id => Some id
  end.

(** A registry kept in memory: a collector that describes nothing is
    always accepted; one whose name is taken is answered with
    [AlreadyRegisteredError] carrying the collector that holds the name. *)
Definition memRegister (r : list prometheus.Collector) (x : prometheus.Collector)
    : list prometheus.Collector * option error :=
  match fqName x with
  | None => (r ++ [x], None)
  | Some n =>
      match find (λ y, bool_decide (fqName y = Some n)) r with
      | Some existing => (r, Some (AlreadyRegisteredError existing x))
      | None => (r ++ [x], None)
      end
  end.

(** A descriptor check that accepts every descriptor. *)
Definition acceptDesc : DescCheck := λ _, None.

(** ** Further vocabulary *)

(** The parser found a broker or a topic in the raw name. *)
Definition dimensioned (name : string) : Prop :=
  (parseMetricName name).1.2 ≠ "" ∨ (parseMetricName name).2 ≠ "".

(** The kinds [update] has no case for. *)
Definition unsupported (i : metrics.Metric) : bool :=
  match i with
  | metrics.Healthcheck => true
  | _ => false
  end.

(** A registerer that refuses every collector. *)
Definition refuseRegister (r : unit) (x : prometheus.Collector) : unit * option error :=
  (r, Some (ErrLibrary "refused")).

(** The value a metric publishes as a gauge in a cycle, for the metrics
    that have one whatever came before them: every counter, gauge, float
    gauge, meter and timer, and a histogram whose reservoir is not empty
    (its last sample). *)
Definition cycle_gauge (i : metrics.Metric) : option float :=
  match i with
  | metrics.Counter count => Some (float64_of_int64 count)
  | metrics.Gauge value => Some (float64_of_int64 value)
  | metrics.GaugeFloat64 value => Some value
  | metrics.Histogram s => float64_of_int64 <$> last (metrics.hs_Values s)
  | metrics.Meter rate1 => Some rate1
  | metrics.Timer s => Some (metrics.ts_Rate1 s)
  | metrics.Healthcheck => None
  end.

(** What follows the gauge publish of a metric in the callback of
    [update]: a histogram or a timer whose gauge publish returned [nil]
    goes on to its histogram publish; nothing follows otherwise. *)
Definition then_histogram {R : Type} {HR : Registerer R} {HD : DescCheck}
    (name : string) (i : metrics.Metric) (out : exporter R * result)
    : exporter R * result :=
  match out.2, i with
  | OK, metrics.Histogram _ =>
      histogramFromNameAndMetric name i (histogramBuckets out.1) out.1
  | OK, metrics.Timer _ =>
      histogramFromNameAndMetric name i (timerBuckets out.1) out.1
  | _, _ => out
  end.

(** ** Inputs of the scenarios *)

Definition scenarioOptions : Options :=
  {| Namespace := "sarama"; Subsystem := ""; Labels := 1%positive; Debug := false |}.

(** A fresh exporter over the in-memory registry holding [r], with no
    configured labels and the quantile boundaries 0.5 and 0.95. *)
Definition scenarioExporter (reg : list (string * metrics.Metric))
    (r : list prometheus.Collector) : exporter (list prometheus.Collector) :=
  newExporter scenarioOptions reg r ∅ [0.5%float; 0.95%float] [0.5%float; 0.95%float].

(** A histogram whose reservoir holds [values] and whose quantiles at 0.5
    and at 0.95 are [p50] and [p95]. *)
Definition sampleHistogram (values : list Z) (p50 p95 : float) : metrics.Metric :=
  metrics.Histogram
    {| metrics.hs_Count := Z.of_nat (length values);
       metrics.hs_Sum := foldr Z.add 0%Z values;
       metrics.hs_Values := values;
       metrics.hs_Percentile := λ q, if PrimFloat.ltb q 0.7 then p50 else p95 |}.

(** Two counters in one cycle, the name of the first being held in the
    registry by a collector of another kind. *)
Definition twoCounters : exporter (list prometheus.Collector) :=
  scenarioExporter
    [("a-for-broker-1", metrics.Counter 1); ("b-for-broker-1", metrics.Counter 2)]
    [prometheus.OtherCollector "sarama_a"].

(** * Properties of the string layer *)

Lemma app_cons x (a b : string) : String x a +:+ b = String x (a +:+ b).
Proof. reflexivity. Qed.

Lemma app_nil (b : string) : "" +:+ b = b.
Proof. reflexivity. Qed.

Ltac str_simpl := rewrite ?app_cons, ?app_nil in *.

Lemma HasPrefix_app s p : HasPrefix s p = true ↔ ∃ r, s = p +:+ r.
Proof.
  revert s; induction p as [|a p IH]; intros s; simpl.
  - split; [intros _; by exists s | done].
  - destruct s as [|b s].
    + split; [done | intros [r Hr]; discriminate].
    + case_decide as Hab.
      * subst b. rewrite IH. split; intros [r Hr]; exists r.
        -- by rewrite Hr.
        -- by injection Hr.
      * split; [done | intros [r Hr]; injection Hr; congruence].
Qed.

Lemma Index_ge_m1 s m : (-1 <= Index s m)%Z.
Proof.
  induction s as [|a s IH]; simpl; destruct (HasPrefix _ m); try lia.
  destruct (Z.ltb_spec (Index s m) 0); lia.
Qed.

Lemma string_app_assoc (a b c : string) : (a +:+ b) +:+ c = a +:+ b +:+ c.
Proof. induction a as [|x a IH]; str_simpl; [done | by rewrite IH]. Qed.

Lemma string_app_length (a b : string) :
  String.length (a +:+ b) = String.length a + String.length b.
Proof. induction a as [|x a IH]; str_simpl; simpl; [done | by rewrite IH]. Qed.

Lemma slice_to_app (a b : string) : slice_to (a +:+ b) (String.length a) = a.
Proof.
  induction a as [|x a IH]; str_simpl; simpl; [by destruct b | by rewrite IH].
Qed.

Lemma slice_from_app (a b : string) : slice_from (a +:+ b) (String.length a) = b.
Proof. induction a as [|x a IH]; str_simpl; simpl; [by destruct b | done]. Qed.

Lemma slice_from_app2 (a m b : string) :
  slice_from (a +:+ m +:+ b) (String.length a + String.length m) = b.
Proof.
  rewrite <- string_app_length, <- string_app_assoc. apply slice_from_app.
Qed.

(** [Index] finds the first occurrence: the text before it and the marker
    rebuild the string, and no occurrence starts earlier. *)
Lemma Index_found s m i :
  (0 <= i)%Z → Index s m = i →
  ∃ pre suf, s = pre +:+ m +:+ suf ∧ Z.of_nat (String.length pre) = i ∧
    ∀ p q, s = p +:+ m +:+ q → String.length pre ≤ String.length p.
Proof.
  revert i; induction s as [|a s IH]; intros i Hi; simpl.
  - destruct (HasPrefix "" m) eqn:Hp; [|lia].
    intros <-. apply HasPrefix_app in Hp as [r Hr].
    exists EmptyString, r. split; [done|]. split; [done|]. simpl; lia.
  - destruct (HasPrefix (String a s) m) eqn:Hp.
    + intros <-. apply HasPrefix_app in Hp as [r Hr].
      exists EmptyString, r. split; [done|]. split; [done|]. simpl; lia.
    + destruct (Z.ltb_spec (Index s m) 0) as [Hlt|Hge]; [lia|].
      intros <-.
      destruct (IH (Index s m) Hge eq_refl) as (pre & suf & Hs & Hlen & Hmin).
      exists (String a pre), suf. split; [by rewrite Hs|].
      split; [simpl; lia|].
      intros p q Hpq. destruct p as [|b p]; str_simpl.
      * assert (HasPrefix (String a s) m = true) as Hc
          by (apply HasPrefix_app; eauto).
        congruence.
      * injection Hpq as _ Hpq. specialize (Hmin p q Hpq). simpl. lia.
Qed.

Lemma Index_none s m : Index s m = (-1)%Z → ¬ contains s m.
Proof.
  induction s as [|a s IH]; simpl.
  - destruct (HasPrefix "" m) eqn:Hp; [lia|].
    intros _ (pre & suf & Hs). destruct pre; str_simpl.
    + assert (HasPrefix "" m = true) by (apply HasPrefix_app; eauto).
      congruence.
    + discriminate.
  - destruct (HasPrefix (String a s) m) eqn:Hp; [lia|].
    destruct (Z.ltb_spec (Index s m) 0) as [Hlt|Hge]; [|lia].
    intros _ (pre & suf & Hs). destruct pre as [|b pre]; str_simpl.
    + assert (HasPrefix (String a s) m = true) by (apply HasPrefix_app; eauto).
      congruence.
    + injection Hs as _ Hs. apply IH; [|by exists pre, suf].
      pose proof (Index_ge_m1 s m). lia.
Qed.

Lemma Index_contains s m : (0 <= Index s m)%Z ↔ contains s m.
Proof.
  split.
  - intros Hi. destruct (Index_found s m _ Hi eq_refl) as (pre & suf & Hs & _).
    by exists pre, suf.
  - intros Hc. destruct (Z.le_gt_cases 0 (Index s m)) as [|Hlt]; [done|].
    exfalso. apply (Index_none s m); [|done].
    pose proof (Index_ge_m1 s m). lia.
Qed.


Lemma parseMetricName_broker name base id :
  name = base +:+ brokerMarker +:+ id →
  (∀ p q, name = p +:+ brokerMarker +:+ q → String.length base ≤ String.length p) →
  parseMetricName name = (base, id, "").
Proof.
  intros Hname Hmin. unfold parseMetricName.
  assert (0 <= Index name brokerMarker)%Z as Hi
    by (apply Index_contains; by exists base, id).
  destruct (Index_found _ _ _ Hi eq_refl) as (pre & suf & Hs & Hlen & Hfirst).
  assert (String.length pre = String.length base) as Hl.
  { apply Nat.le_antisymm; [by apply (Hfirst base id) | by apply (Hmin pre suf)]. }
  assert (pre = base) as ->.
  { rewrite <- (slice_to_app pre (brokerMarker +:+ suf)), <- Hs, Hl, Hname.
    apply slice_to_app. }
  assert (suf = id) as ->.
  { rewrite <- (slice_from_app2 base brokerMarker suf), <- Hs, Hname.
    apply slice_from_app2. }
  destruct (Z.leb_spec 0 (Index name brokerMarker)); [|lia].
  rewrite <- Hlen, Nat2Z.id. rewrite Hname at 1 2.
  by rewrite slice_to_app, slice_from_app2.
Qed.

Lemma parseMetricName_topic name base t :
  ¬ contains name brokerMarker →
  name = base +:+ topicMarker +:+ t →
  (∀ p q, name = p +:+ topicMarker +:+ q → String.length base ≤ String.length p) →
  parseMetricName name = (base, "", t).
Proof.
  intros Hnb Hname Hmin. unfold parseMetricName.
  destruct (Z.leb_spec 0 (Index name brokerMarker)) as [Hb|_].
  { by apply Index_contains in Hb. }
  assert (0 <= Index name topicMarker)%Z as Hi
    by (apply Index_contains; by exists base, t).
  destruct (Index_found _ _ _ Hi eq_refl) as (pre & suf & Hs & Hlen & Hfirst).
  assert (String.length pre = String.length base) as Hl.
  { apply Nat.le_antisymm; [by apply (Hfirst base t) | by apply (Hmin pre suf)]. }
  assert (pre = base) as ->.
  { rewrite <- (slice_to_app pre (topicMarker +:+ suf)), <- Hs, Hl, Hname.
    apply slice_to_app. }
  assert (suf = t) as ->.
  { rewrite <- (slice_from_app2 base topicMarker suf), <- Hs, Hname.
    apply slice_from_app2. }
  destruct (Z.leb_spec 0 (Index name topicMarker)); [|lia].
  rewrite <- Hlen, Nat2Z.id. rewrite Hname at 1 2.
  by rewrite slice_to_app, slice_from_app2.
Qed.

Lemma parseMetricName_plain name :
  ¬ contains name brokerMarker → ¬ contains name topicMarker →
  parseMetricName name = (name, "", "").
Proof.
  intros Hb Ht. unfold parseMetricName.
  destruct (Z.leb_spec 0 (Index name brokerMarker)) as [H|_].
  { by apply Index_contains in H. }
  destruct (Z.leb_spec 0 (Index name topicMarker)) as [H|_]; [|done].
  by apply Index_contains in H.
Qed.

(** A string that contains a marker splits at its first occurrence. *)
Lemma contains_first s m :
  contains s m →
  ∃ base x, s = base +:+ m +:+ x ∧
    ∀ p q, s = p +:+ m +:+ q → String.length base ≤ String.length p.
Proof.
  intros Hc. apply Index_contains in Hc.
  destruct (Index_found _ _ _ Hc eq_refl) as (pre & suf & Hs & _ & Hfirst).
  by exists pre, suf.
Qed.

(** C5. For a raw name that contains [-for-broker-], the parser returns
    the text before the first occurrence of the marker as base name, the
    text after it as broker and an empty topic; otherwise, for a name that
    contains [-for-topic-], the same split yields the topic; a name with
    neither marker is returned unchanged with empty broker and topic.
    The function is total, so there is no error case. *)
Theorem parseMetricName_spec (name : string) :
  (contains name brokerMarker →
     ∃ base id, name = base +:+ brokerMarker +:+ id ∧
       (∀ p q, name = p +:+ brokerMarker +:+ q →
               String.length base ≤ String.length p) ∧
       parseMetricName name = (base, id, "")) ∧
  (¬ contains name brokerMarker → contains name topicMarker →
     ∃ base t, name = base +:+ topicMarker +:+ t ∧
       (∀ p q, name = p +:+ topicMarker +:+ q →
               String.length base ≤ String.length p) ∧
       parseMetricName name = (base, "", t)) ∧
  (¬ contains name brokerMarker → ¬ contains name topicMarker →
     parseMetricName name = (name, "", "")).
Proof.
  split; [|split].
  - intros Hc. destruct (contains_first _ _ Hc) as (base & id & Hs & Hmin).
    exists base, id. eauto using parseMetricName_broker.
  - intros Hnb Hc. destruct (contains_first _ _ Hc) as (base & t & Hs & Hmin).
    exists base, t. eauto using parseMetricName_topic.
  - apply parseMetricName_plain.
Qed.

(** The three cases of the parser on the names of the end-to-end
    scenarios. *)
Lemma parseMetricName_spec_witness :
  (∃ base id, "outgoing-byte-rate-for-broker-7" = base +:+ brokerMarker +:+ id ∧
     parseMetricName "outgoing-byte-rate-for-broker-7" = (base, id, "")) ∧
  (∃ base t, "req-rate-for-topic-orders" = base +:+ topicMarker +:+ t ∧
     parseMetricName "req-rate-for-topic-orders" = (base, "", t)) ∧
  parseMetricName "produce-errors" = ("produce-errors", "", "").
Proof.
  split; [|split].
  - destruct (parseMetricName_spec "outgoing-byte-rate-for-broker-7")
      as [H _].
    destruct H as (base & id & Hs & _ & Hp).
    + by exists "outgoing-byte-rate", "7".
    + exists base, id; split; assumption.
  - destruct (parseMetricName_spec "req-rate-for-topic-orders")
      as (_ & H & _).
    destruct H as (base & t & Hs & _ & Hp).
    + intros Hc. apply Index_contains in Hc. vm_compute in Hc. by apply Hc.
    + by exists "req-rate", "orders".
    + exists base, t; split; assumption.
  - destruct (parseMetricName_spec "produce-errors") as (_ & _ & H).
    apply H; intros Hc; apply Index_contains in Hc; vm_compute in Hc; by apply Hc.
Defined.

Lemma allowed_name_chars (c : ascii) : allowed c = bool_decide (c ∈ name_chars).
Proof. by destruct c as [[] [] [] [] [] [] [] []]; vm_compute. Qed.

Lemma sanitizeName_bytes s :
  bytes (sanitizeName s) =
  (λ c, if bool_decide (c ∈ name_chars) then c else "_"%char) <$> bytes s.
Proof.
  induction s as [|c s IH]; simpl; [done|].
  by rewrite IH, allowed_name_chars.
Qed.

Lemma allowed_fix c : allowed (if allowed c then c else "_"%char) = true.
Proof. by destruct (allowed c) eqn:E. Qed.

(** C6. Sanitizing twice is sanitizing once; every character of a
    sanitized string lies in [a-zA-Z0-9_:]; the characters of the class are
    kept and every other one becomes an underscore.  The function is total. *)
Theorem sanitizeName_spec (s : string) :
  sanitizeName (sanitizeName s) = sanitizeName s ∧
  (∀ c, c ∈ bytes (sanitizeName s) → c ∈ name_chars) ∧
  bytes (sanitizeName s) =
    (λ c, if bool_decide (c ∈ name_chars) then c else "_"%char) <$> bytes s.
Proof.
  split; [|split].
  - induction s as [|c s IH]; simpl; [done|].
    by rewrite allowed_fix, IH.
  - induction s as [|c s IH]; simpl; intros x Hx.
    + by apply elem_of_nil in Hx.
    + apply elem_of_cons in Hx as [->|Hx]; [|by apply IH].
      pose proof (allowed_fix c) as Ha.
      rewrite allowed_name_chars in Ha. by apply bool_decide_eq_true in Ha.
  - apply sanitizeName_bytes.
Qed.

(** * Properties of the exporter *)

Section ExporterFacts.
Context {R : Type} {HR : Registerer R} {HD : DescCheck}.
Implicit Types (c : exporter R) (name : string) (val : float).

Lemma parseMetricName_one name base broker topic :
  parseMetricName name = (base, broker, topic) → broker = "" ∨ topic = "".
Proof.
  unfold parseMetricName. repeat case_match; intros [= <- <- <-]; auto.
Qed.

Lemma metricNameAndLabels_skip name c base :
  parseMetricName name = (base, "", "") →
  metricNameAndLabels name c = (c, (base, None, true)).
Proof. intros Hp. unfold metricNameAndLabels. by rewrite Hp. Qed.

Lemma metricNameAndLabels_hit name c base broker topic l :
  parseMetricName name = (base, broker, topic) →
  ¬ (broker = "" ∧ topic = "") →
  labelsMap c !! name = Some l →
  metricNameAndLabels name c = (c, (base, Some l, false)).
Proof.
  intros Hp Hd Hl. unfold metricNameAndLabels. rewrite Hp, Hl.
  repeat case_bool_decide; simpl; naive_solver.
Qed.

Lemma metricNameAndLabels_miss_broker name c base broker :
  parseMetricName name = (base, broker, "") → broker ≠ "" →
  labelsMap c !! name = None →
  metricNameAndLabels name c =
    (set_labelsMap (<[name := Labels (opt c)]> (labelsMap c))
       (map_store (Labels (opt c)) "broker" broker c),
     (base, Some (Labels (opt c)), false)).
Proof.
  intros Hp Hd Hl. unfold metricNameAndLabels. rewrite Hp, Hl.
  repeat case_bool_decide; simpl; naive_solver.
Qed.

Lemma metricNameAndLabels_miss_topic name c base topic :
  parseMetricName name = (base, "", topic) → topic ≠ "" →
  labelsMap c !! name = None →
  metricNameAndLabels name c =
    (set_labelsMap (<[name := Labels (opt c)]> (labelsMap c))
       (map_store (Labels (opt c)) "topic" topic c),
     (base, Some (Labels (opt c)), false)).
Proof.
  intros Hp Hd Hl. unfold metricNameAndLabels. rewrite Hp, Hl.
  repeat case_bool_decide; simpl; naive_solver.
Qed.

Lemma metricNameAndLabels_frame name c :
  same_but_labels c (metricNameAndLabels name c).1.
Proof.
  unfold metricNameAndLabels, same_but_labels.
  destruct (parseMetricName name) as [[base broker] topic].
  repeat case_match; simpl; repeat case_bool_decide; simpl; done.
Qed.

(** The resolver returns the base name of the parser, and skips exactly
    when the parser found no dimension. *)
Lemma metricNameAndLabels_result name c :
  ∃ labels,
    (metricNameAndLabels name c).2 =
      ((parseMetricName name).1.1, labels,
       bool_decide ((parseMetricName name).1.2 = "")
       && bool_decide ((parseMetricName name).2 = "")).
Proof.
  unfold metricNameAndLabels.
  destruct (parseMetricName name) as [[base broker] topic]; simpl.
  destruct (bool_decide (broker = "") && bool_decide (topic = "")); simpl.
  - by eexists.
  - case_match; by eexists.
Qed.

Lemma gauge_get_set (g : prometheus.Gauge) val s :
  gauge_get g (gauge_set g val s) = Some val.
Proof.
  induction s as [|[g' v'] s IH]; simpl.
  - by rewrite decide_True.
  - destruct (decide (g' = g)) as [->|Hne]; simpl.
    + by rewrite decide_True.
    + by rewrite decide_False.
Qed.

Lemma gauge_get_set_ne (g h : prometheus.Gauge) val s :
  g ≠ h → gauge_get h (gauge_set g val s) = gauge_get h s.
Proof.
  intros Hne. induction s as [|[g' v'] s IH]; simpl.
  - by rewrite decide_False.
  - destruct (decide (g' = g)) as [->|Hg]; simpl.
    + by rewrite !decide_False.
    + destruct (decide (g' = h)); [done | apply IH].
Qed.

Lemma gaugeVecFor_opt c c' shortName labelNames :
  opt c' = opt c → gaugeVecFor c' shortName labelNames = gaugeVecFor c shortName labelNames.
Proof. unfold gaugeVecFor. by intros ->. Qed.

(** C7. A raw name with neither marker makes the resolver skip, and the
    gauge publish for it returns success without touching the handle
    cache, the name-dedup set, the registerer or anything else of the
    exporter: nothing is created, registered or set.  Its only trace is
    the line printed in debug mode. *)
Theorem gauge_skip_is_noop name val c :
  ¬ contains name brokerMarker → ¬ contains name topicMarker →
  (metricNameAndLabels name c).2.2 = true ∧
  (gaugeFromNameAndValue name val c).2 = OK ∧
  let c' := (gaugeFromNameAndValue name val c).1 in
  gauges c' = gauges c ∧ metricsNameMap c' = metricsNameMap c ∧
  promRegistry c' = promRegistry c ∧ calls c' = calls c ∧
  series c' = series c ∧ customMetrics c' = customMetrics c ∧
  labelsMap c' = labelsMap c ∧ heap c' = heap c ∧
  stdout c' = (if Debug (opt c) then stdout c ++ [LogSkip name] else stdout c).
Proof.
  intros Hb Ht.
  pose proof (parseMetricName_plain name Hb Ht) as Hp.
  unfold gaugeFromNameAndValue.
  rewrite (metricNameAndLabels_skip name c name Hp). simpl.
  by destruct (Debug (opt c)).
Qed.

End ExporterFacts.

(** The counter [produce-errors] of the first end-to-end scenario, on an
    exporter in debug mode. *)
Lemma gauge_skip_is_noop_witness :
  let c := newExporter
             {| Namespace := "sarama"; Subsystem := ""; Labels := 1%positive;
                Debug := true |}
             [] ([] : list prometheus.Collector) ∅ [] [] in
  (gaugeFromNameAndValue (HR := memRegister) "produce-errors" 1%float c).2 = OK ∧
  stdout (gaugeFromNameAndValue (HR := memRegister) "produce-errors" 1%float c).1
    = [LogSkip "produce-errors"].
Proof.
  intros c.
  destruct (gauge_skip_is_noop (HR := memRegister)
              "produce-errors" 1%float c) as (_ & Hok & Hrest).
  - intros Hc; apply Index_contains in Hc; vm_compute in Hc; by apply Hc.
  - intros Hc; apply Index_contains in Hc; vm_compute in Hc; by apply Hc.
  - split; [exact Hok|]. destruct Hrest as (_ & _ & _ & _ & _ & _ & _ & _ & Hout).
    exact Hout.
Defined.


(** Opening a publisher up to its call of the resolver, whose frame is
    put among the hypotheses. *)
Ltac at_resolver :=
  match goal with
  | |- context [metricNameAndLabels ?n ?x] =>
      let Hf := fresh "Hf" in
      pose proof (metricNameAndLabels_frame n x) as Hf;
      unfold same_but_labels in Hf;
      destruct (metricNameAndLabels n x) as [?c [[?sn ?l] ?skip]] eqn:?Hm;
      simpl in Hf;
      destruct Hf as (?&?&?&?&?&?&?&?&?&?&?)
  end.

Ltac open_gauge :=
  unfold gaugeFromNameAndValue, do_Register, bind_and_set, Set_, println.

Ltac open_hist :=
  unfold histogramFromNameAndMetric, do_Register, NewConstHistogram, descFor.

Ltac crunch := repeat (case_match; simpl in *; simplify_eq).

Section Publishers.
Context {R : Type} {HR : Registerer R} {HD : DescCheck}.
Implicit Types (c : exporter R) (name : string) (val : float).

Lemma gauge_frame name val c :
  let c1 := (metricNameAndLabels name c).1 in
  let c' := (gaugeFromNameAndValue name val c).1 in
  opt c' = opt c ∧ labelsMap c' = labelsMap c1 ∧ heap c' = heap c1 ∧
  registry c' = registry c ∧ customMetrics c' = customMetrics c ∧
  histogramBuckets c' = histogramBuckets c ∧ timerBuckets c' = timerBuckets c.
Proof.
  open_gauge. at_resolver. simpl. crunch; repeat split; congruence.
Qed.

Lemma hist_frame name goMetric buckets c :
  let c' := (histogramFromNameAndMetric name goMetric buckets c).1 in
  opt c' = opt c ∧ registry c' = registry c ∧ gauges c' = gauges c ∧
  series c' = series c ∧ stdout c' = stdout c ∧
  histogramBuckets c' = histogramBuckets c ∧ timerBuckets c' = timerBuckets c.
Proof.
  open_hist.
  destruct (customMetrics c !! createKey c name);
    [|destruct (Register (promRegistry c) _) as [r [e|]]]; simpl; try done;
    destruct goMetric; simpl; try done;
    at_resolver; simpl in *; crunch; repeat split; congruence.
Qed.

Lemma aliased_resolver name c :
  aliased c → aliased (metricNameAndLabels name c).1.
Proof.
  unfold aliased, metricNameAndLabels, map_store. intros Ha.
  destruct (parseMetricName name) as [[base broker] topic].
  crunch; try done; intros n l'; rewrite lookup_insert;
    (destruct (decide (name = n)); [intros ?; by simplify_eq | apply (Ha n l')]).
Qed.

Lemma aliased_gauge name val c :
  aliased c → aliased (gaugeFromNameAndValue name val c).1.
Proof.
  intros Ha. pose proof (aliased_resolver name c Ha) as Hr.
  destruct (gauge_frame name val c) as (Ho & Hl & _).
  unfold aliased in *. rewrite Hl, Ho.
  pose proof (metricNameAndLabels_frame name c) as (Ho1 & _).
  by rewrite <- Ho1.
Qed.

Lemma aliased_hist name goMetric buckets c :
  aliased c → aliased (histogramFromNameAndMetric name goMetric buckets c).1.
Proof.
  intros Ha. open_hist.
  destruct (customMetrics c !! createKey c name);
    [|destruct (Register (promRegistry c) _) as [r [e|]]]; simpl; try done;
    destruct goMetric; simpl; try done;
    match goal with
    | |- context [metricNameAndLabels ?n ?x] =>
        pose proof (aliased_resolver n x Ha) as Hr;
        destruct (metricNameAndLabels n x) as [c1 [[sn l] skip]]
    end; simpl in *; crunch; done.
Qed.

End Publishers.

(** A property kept by the two publishers, by printing and by a change of
    the registry's contents is kept over the whole life of an exporter. *)
Section Invariants.
Context {R : Type} {HR : Registerer R} {HD : DescCheck}.
Variable P : exporter R → Prop.
Hypothesis P_gauge : ∀ n v c, P c → P (gaugeFromNameAndValue n v c).1.
Hypothesis P_hist : ∀ n m b c, P c → P (histogramFromNameAndMetric n m b c).1.
Hypothesis P_println : ∀ l c, P c → P (println l c).
Hypothesis P_registry : ∀ reg c, P c → P (set_registry reg c).

Lemma inv_callback n i c err : P c → P (each_callback n i c err).1.
Proof.
  intros Hc. destruct i; simpl; auto.
  - destruct (last _); simpl.
    + pose proof (P_gauge n (float64_of_int64 z) c Hc) as Hg.
      destruct (gaugeFromNameAndValue _ _ c) as [c1 []]; simpl in *; auto.
    + destruct err; simpl; auto.
  - pose proof (P_gauge n (metrics.ts_Rate1 snapshot) c Hc) as Hg.
    destruct (gaugeFromNameAndValue _ _ c) as [c1 []]; simpl in *; auto.
Qed.

Lemma inv_Each l c err : P c → P (Each l c err).1.
Proof.
  revert c err; induction l as [|[n i] l IH]; intros c err Hc; simpl; [done|].
  pose proof (inv_callback n i c err Hc) as Hcb.
  destruct (each_callback n i c err) as [c1 []]; simpl in *; auto.
Qed.

Lemma inv_update c : P c → P (update c).1.
Proof.
  intros Hc. unfold update. apply inv_Each. destruct (Debug (opt c)); auto.
Qed.

Lemma inv_step o c : P c → P (step o c).1.
Proof. intros Hc. destruct o; simpl; auto using inv_update. Qed.

Lemma inv_run ops c : P c → P (run ops c).
Proof.
  revert c; induction ops as [|o ops IH]; intros c Hc; simpl; [done|].
  pose proof (inv_step o c Hc) as Hs.
  destruct (step o c) as [c1 []]; simpl in *; auto.
Qed.

End Invariants.

Section LabelSets.
Context {R : Type} {HR : Registerer R} {HD : DescCheck}.
Implicit Types (c : exporter R) (name : string) (val : float).

Lemma opt_run ops c : opt (run ops c) = opt c.
Proof.
  apply (inv_run (λ c', opt c' = opt c)); try done.
  - intros n v c' <-. apply gauge_frame.
  - intros n m b c' <-. apply hist_frame.
Qed.

Lemma aliased_run ops c : aliased c → aliased (run ops c).
Proof.
  apply inv_run; auto using aliased_gauge, aliased_hist.
Qed.

Lemma aliased_new o reg (r : R) base hb tb : aliased (newExporter o reg r base hb tb).
Proof. intros n l. simpl. by rewrite lookup_empty. Qed.

(** C10. On a cache miss the resolver stores the configured map itself
    under the raw name and writes the parsed [broker] or [topic] into that
    map.  At every point of the life of an exporter the cached label sets
    are therefore that one map object: after the resolution every one of
    them, those cached before for other raw names included, and the
    configuration read as the old configured map with the new key in it. *)
Theorem label_sets_alias (o : Options) reg (r : R) base0 hb tb (ops : list op)
    name base broker topic :
  let c := run ops (newExporter o reg r base0 hb tb) in
  parseMetricName name = (base, broker, topic) →
  ¬ (broker = "" ∧ topic = "") →
  labelsMap c !! name = None →
  let c' := (metricNameAndLabels name c).1 in
  let key := if bool_decide (broker ≠ "") then "broker" else "topic" in
  let value := if bool_decide (broker ≠ "") then broker else topic in
  opt c' = o ∧
  labelsMap c' !! name = Some (Labels o) ∧
  (∀ n l, labelsMap c' !! n = Some l → l = Labels o) ∧
  deref c' (Some (Labels o)) = <[key := value]> (deref c (Some (Labels o))) ∧
  (∀ n, is_Some (labelsMap c !! n) →
        labelsMap c' !! n = labelsMap c !! n ∧
        deref c (labelsMap c !! n) = deref c (Some (Labels o)) ∧
        deref c' (labelsMap c' !! n) = <[key := value]> (deref c (labelsMap c !! n))).
Proof.
  intros c Hp Hd Hmiss c' key value.
  assert (opt c = o) as Ho by apply opt_run.
  assert (aliased c) as Ha by apply aliased_run, aliased_new.
  assert (c' = set_labelsMap (<[name := Labels o]> (labelsMap c))
                 (map_store (Labels o) key value c)) as Hc'.
  { subst c' key value. destruct (parseMetricName_one _ _ _ _ Hp) as [->| ->].
    - rewrite bool_decide_false by naive_solver.
      rewrite (metricNameAndLabels_miss_topic name c base topic Hp); [|naive_solver|done].
      by rewrite Ho.
    - assert (broker ≠ "") by naive_solver. rewrite bool_decide_true by done.
      rewrite (metricNameAndLabels_miss_broker name c base broker Hp); [|done|done].
      by rewrite Ho. }
  assert (deref c' (Some (Labels o)) = <[key := value]> (deref c (Some (Labels o)))) as Hderef.
  { rewrite Hc'. simpl. by rewrite lookup_insert_eq. }
  split; [by rewrite Hc'|].
  split; [rewrite Hc'; simpl; by rewrite lookup_insert_eq|].
  split.
  { intros n l. rewrite Hc'. simpl. rewrite lookup_insert.
    destruct (decide (name = n)); [intros ?; by simplify_eq|].
    intros Hl. rewrite <- Ho. by apply (Ha n l). }
  split; [done|].
  intros n [l Hl].
  assert (l = Labels o) as -> by (rewrite <- Ho; by apply (Ha n _)).
  assert (labelsMap c' !! n = Some (Labels o)) as Hl'.
  { rewrite Hc'. simpl. rewrite lookup_insert. by destruct (decide (name = n)). }
  rewrite Hl', Hl. done.
Qed.

End LabelSets.

(** Resolving [req-rate-for-topic-payments] after the gauge of
    [req-rate-for-topic-orders] was published. *)
Lemma label_sets_alias_witness :
  let o := {| Namespace := "sarama"; Subsystem := ""; Labels := 1%positive;
              Debug := false |} in
  let c := run (HR := memRegister) (HD := acceptDesc)
             [PublishGauge "req-rate-for-topic-orders" 1%float]
             (newExporter o [] [] ∅ [] []) in
  let c' := (metricNameAndLabels "req-rate-for-topic-payments" c).1 in
  deref c (labelsMap c !! "req-rate-for-topic-orders") !! "topic" = Some "orders" ∧
  deref c' (labelsMap c' !! "req-rate-for-topic-orders") !! "topic" = Some "payments".
Proof.
  intros o c c'.
  destruct (label_sets_alias (HR := memRegister) (HD := acceptDesc) o [] [] ∅ [] []
              [PublishGauge "req-rate-for-topic-orders" 1%float]
              "req-rate-for-topic-payments" "req-rate" "" "payments")
    as (_ & _ & _ & _ & H).
  - reflexivity.
  - intros [_ Hx]. discriminate Hx.
  - reflexivity.
  - destruct (H "req-rate-for-topic-orders") as (_ & _ & H2).
    + eexists. reflexivity.
    + split; [reflexivity|]. subst c'. fold c in H2. rewrite H2.
      reflexivity.
Defined.

Section Registration.
Context {R : Type} {HR : Registerer R} {HD : DescCheck}.
Implicit Types (c : exporter R) (name : string) (val : float).

(** C9. The gauge publish reaches [Register] with a new vector and the
    registerer answers with an error.  When the error is
    [AlreadyRegisteredError] and the collector it carries is a gauge
    vector, the publish binds the handle of the raw name to that existing
    vector, sets it and returns success; when the carried collector is of
    another kind the publish returns the type-mismatch error and binds
    nothing; any other error is returned as it is. *)
Theorem register_recovery name val c c1 shortName labels r' e :
  metricNameAndLabels name c = (c1, (shortName, labels, false)) →
  gauges c !! name = None →
  seen c (sanitizeName shortName) = false →
  Register (promRegistry c)
    (prometheus.GaugeVecC
       (gaugeVecFor c shortName (map_to_list (deref c1 labels)).*1)) = (r', Some e) →
  let out := gaugeFromNameAndValue name val c in
  match e with
  | AlreadyRegisteredError (prometheus.GaugeVecC g') _ =>
      out.2 = OK ∧
      gauges out.1 !! name = Some (prometheus.With g' (deref c1 labels)) ∧
      gauge_value out.1 name = Some val
  | AlreadyRegisteredError _ _ =>
      out.2 = Err ErrNotGaugeVec ∧ gauges out.1 !! name = None
  | _ => out.2 = Err e
  end.
Proof.
  intros Hm Hg Hs Hreg out. subst out.
  pose proof (metricNameAndLabels_frame name c) as Hf.
  rewrite Hm in Hf. unfold same_but_labels in Hf. simpl in Hf.
  destruct Hf as (Ho & _ & Hr & Hgs & _ & _ & _ & Hn & _).
  unfold gaugeFromNameAndValue, do_Register, seen in *.
  rewrite Hm. simpl. rewrite Hgs, Hg, Hn, Hs. simpl.
  rewrite (gaugeVecFor_opt c), Hr, Hreg by (simpl; done).
  destruct e as [[g'|key|id] x| | |msg]; simpl; try done.
  - unfold gauge_value, bind_and_set, Set_. simpl.
    rewrite lookup_insert_eq. simpl. split; [done|]. split; [done|].
    apply gauge_get_set.
  - by rewrite Hgs, Hg.
  - by rewrite Hgs, Hg.
Qed.

End Registration.

(** The fourth end-to-end scenario with a collector of another kind
    holding the name: the publish returns the type-mismatch error. *)
Lemma register_recovery_witness :
  let o := {| Namespace := "sarama"; Subsystem := ""; Labels := 1%positive;
              Debug := false |} in
  let c := newExporter o [] [prometheus.OtherCollector "sarama_req_rate"] ∅ [] [] in
  (gaugeFromNameAndValue (HR := memRegister) "req-rate-for-topic-orders" 1%float c).2
    = Err ErrNotGaugeVec.
Proof.
  intros o c.
  pose proof (register_recovery (HR := memRegister)
                "req-rate-for-topic-orders" 1%float c
                (metricNameAndLabels "req-rate-for-topic-orders" c).1
                "req-rate" (Some 1%positive)
                [prometheus.OtherCollector "sarama_req_rate"]
                (AlreadyRegisteredError (prometheus.OtherCollector "sarama_req_rate")
                   (prometheus.GaugeVecC
                      (gaugeVecFor c "req-rate" ["topic"])))) as H.
  assert (metricNameAndLabels "req-rate-for-topic-orders" c
          = ((metricNameAndLabels "req-rate-for-topic-orders" c).1,
             ("req-rate", Some 1%positive, false))) as H1
    by (vm_compute; reflexivity).
  assert (gauges c !! "req-rate-for-topic-orders" = None) as H2
    by (vm_compute; reflexivity).
  assert (seen c (sanitizeName "req-rate") = false) as H3
    by (vm_compute; reflexivity).
  exact (proj1 (H H1 H2 H3 ltac:(vm_compute; reflexivity))).
Defined.

Section AtMostOnce.
Context {R : Type} {HR : Registerer R} {HD : DescCheck}.
Implicit Types (c : exporter R) (name : string) (val : float).

Lemma vecNames_snoc l x :
  vecNames (l ++ [x]) = vecNames l ++ from_option (λ n, [n]) [] (vecName x).
Proof. unfold vecNames. rewrite omap_app. simpl. by destruct (vecName x). Qed.

(** What a gauge publish does to the registerer and to the name-dedup
    set: nothing, or one insertion followed by one [Register]. *)
Lemma gauge_registry_effect name val c :
  let out := gaugeFromNameAndValue name val c in
  (calls out.1 = calls c ∧ metricsNameMap out.1 = metricsNameMap c ∧
   promRegistry out.1 = promRegistry c) ∨
  (∃ sn labelNames,
     seen c (sanitizeName sn) = false ∧
     metricsNameMap out.1 = <[sanitizeName sn := true]> (metricsNameMap c) ∧
     calls out.1 = calls c ++ [prometheus.GaugeVecC (gaugeVecFor c sn labelNames)]).
Proof.
  unfold seen. open_gauge. at_resolver. simpl.
  destruct skip; simpl; [left; crunch; done|].
  destruct (gauges c0 !! name); simpl; [left; done|].
  destruct (default false (metricsNameMap c0 !! sanitizeName sn)) eqn:Hs; simpl;
    [left; done|].
  right. exists sn, (map_to_list (deref c0 l)).*1.
  rewrite (gaugeVecFor_opt c) by done.
  split; [congruence|].
  destruct (Register _ _) as [r e]. crunch; split; congruence.
Qed.

Lemma hist_registry_effect name goMetric buckets c :
  let out := histogramFromNameAndMetric name goMetric buckets c in
  (calls out.1 = calls c ∨
   ∃ key, calls out.1 = calls c ++ [prometheus.CustomCollectorC key]) ∧
  (metricsNameMap out.1 = metricsNameMap c ∨
   ∃ k, metricsNameMap out.1 = <[k := true]> (metricsNameMap c)).
Proof.
  open_hist.
  destruct (customMetrics c !! createKey c name);
    [|destruct (Register (promRegistry c) _) as [r [e|]]]; simpl; eauto;
    destruct goMetric; simpl; eauto;
    at_resolver; simpl in *; crunch;
    (split;
     [first [left; congruence | right; eexists; eassumption]
     |first [left; congruence
            |right; eexists;
             match goal with
             | H : metricsNameMap _ = metricsNameMap _ |- _ => rewrite H
             end; reflexivity]]).
Qed.

Lemma once_gauge name val c :
  registered_once c → registered_once (gaugeFromNameAndValue name val c).1.
Proof.
  intros [Hnd Hseen]. unfold registered_once.
  destruct (gauge_registry_effect name val c)
    as [(Hc & Hn & _)|(sn & ln & Hs & Hn & Hc)].
  - unfold seen in *. by rewrite Hc, Hn.
  - rewrite Hc, vecNames_snoc. simpl. split.
    + apply NoDup_app. split; [done|]. split; [|apply NoDup_singleton].
      intros n Hin ->%list_elem_of_singleton.
      apply Hseen in Hin. congruence.
    + intros n Hin. unfold seen in *. rewrite Hn, lookup_insert.
      destruct (decide (sanitizeName sn = n)); [done|].
      apply elem_of_app in Hin as [Hin| ->%list_elem_of_singleton]; [auto|done].
Qed.

Lemma once_hist name goMetric buckets c :
  registered_once c →
  registered_once (histogramFromNameAndMetric name goMetric buckets c).1.
Proof.
  intros [Hnd Hseen]. unfold registered_once.
  destruct (hist_registry_effect name goMetric buckets c) as [Hc Hn].
  assert (vecNames (calls (histogramFromNameAndMetric name goMetric buckets c).1)
          = vecNames (calls c)) as ->.
  { destruct Hc as [->|[key ->]]; [done|].
    rewrite vecNames_snoc. simpl. apply app_nil_r. }
  split; [done|]. intros n Hin. unfold seen in *.
  destruct Hn as [->|[k ->]]; [auto|].
  rewrite lookup_insert. destruct (decide (k = n)); auto.
Qed.

Lemma once_run ops c : registered_once c → registered_once (run ops c).
Proof. apply inv_run; auto using once_gauge, once_hist. Qed.

Lemma once_new o reg (r : R) base hb tb :
  registered_once (newExporter o reg r base hb tb).
Proof.
  split; simpl; [apply NoDup_nil_2 | intros n Hn; by apply elem_of_nil in Hn].
Qed.

Lemma gauge_seen name val c :
  seen c (sanitizeName (parseMetricName name).1.1) = true →
  let out := gaugeFromNameAndValue name val c in
  out.2 = OK ∧ calls out.1 = calls c ∧ promRegistry out.1 = promRegistry c ∧
  metricsNameMap out.1 = metricsNameMap c.
Proof.
  unfold seen. intros Hs.
  destruct (metricNameAndLabels_result name c) as [lab Hres].
  open_gauge. at_resolver. simpl in Hres. injection Hres as -> -> ->.
  rewrite <- H6 in Hs. simpl. rewrite Hs. crunch; done.
Qed.

Lemma held_insert_new c key k :
  customMetrics c !! key = None →
  (<[key := newCustomCollector]> (customMetrics c) !! k) ≫= metric = held c k.
Proof.
  intros Hk. unfold held. rewrite lookup_insert.
  destruct (decide (key = k)) as [<-|]; [by rewrite Hk | done].
Qed.

Lemma hist_seen name goMetric buckets typeName c :
  typeNameOf goMetric = Some typeName →
  seen c (sanitizeName (parseMetricName name).1.1 +:+ "_" +:+ typeName) = true →
  let out := histogramFromNameAndMetric name goMetric buckets c in
  (out.2 = OK ∨ ∃ e, out.2 = Panic e) ∧
  vecNames (calls out.1) = vecNames (calls c) ∧
  metricsNameMap out.1 = metricsNameMap c ∧
  ∀ k, held out.1 k = held c k.
Proof.
  intros Ht Hs out. unfold seen in Hs.
  assert (vecNames (calls out.1) = vecNames (calls c)) as Hv.
  { subst out.
    destruct (hist_registry_effect name goMetric buckets c) as [[->|[key ->]] _];
      [done|]. rewrite vecNames_snoc. simpl. apply app_nil_r. }
  split; [|split; [done|]]; subst out; clear Hv; open_hist.
  - destruct (customMetrics c !! createKey c name);
      [|destruct (Register (promRegistry c) _) as [r [e|]]]; simpl; eauto;
      destruct goMetric; simplify_eq/=;
      match goal with
      | |- context [metricNameAndLabels ?n ?x] =>
          destruct (metricNameAndLabels_result n x) as [lab Hres]
      end; at_resolver; simpl in Hres; injection Hres as -> -> ->;
      simpl in *; rewrite <- H6 in Hs; rewrite Hs; crunch; eauto.
  - destruct (customMetrics c !! createKey c name) eqn:Hk;
      [|destruct (Register (promRegistry c) _) as [r [e|]]]; simpl; eauto;
      destruct goMetric; simplify_eq/=;
      match goal with
      | |- context [metricNameAndLabels ?n ?x] =>
          destruct (metricNameAndLabels_result n x) as [lab Hres]
      end; at_resolver; simpl in Hres; injection Hres as -> -> ->;
      simpl in *; rewrite <- H6 in Hs; rewrite Hs; unfold held;
      crunch; (split; [done|]); intros k;
      rewrite ?H3; try done; by apply held_insert_new.
Qed.

Lemma gauge_unseen name val c c1 shortName labels :
  metricNameAndLabels name c = (c1, (shortName, labels, false)) →
  gauges c !! name = None →
  seen c (sanitizeName shortName) = false →
  let out := gaugeFromNameAndValue name val c in
  seen out.1 (sanitizeName shortName) = true ∧
  calls out.1 =
    calls c ++ [prometheus.GaugeVecC
                  (gaugeVecFor c shortName (map_to_list (deref c1 labels)).*1)].
Proof.
  unfold seen. intros Hm Hg Hs.
  pose proof (metricNameAndLabels_frame name c) as Hf.
  rewrite Hm in Hf. unfold same_but_labels in Hf. simpl in Hf.
  destruct Hf as (Ho & _ & Hr & Hgs & _ & _ & _ & Hn & _ & Hc & _).
  open_gauge. rewrite Hm. simpl. rewrite Hgs, Hg, Hn, Hs. simpl.
  rewrite (gaugeVecFor_opt c) by done.
  destruct (Register _ _) as [r e].
  crunch; rewrite ?lookup_insert_eq, ?Hc; done.
Qed.

End AtMostOnce.

(** C3 at its input.  The gauges of [req-rate-for-topic-orders] and of
    [req-rate-for-topic-payments] are published in turn: the vector is
    handed to [Register] once, the first name gets its handle, and the
    second publish returns success at the name-dedup check without
    binding or setting anything. *)
Theorem second_topic_gets_no_handle :
  let c1 := run (HR := memRegister) (HD := acceptDesc)
              [PublishGauge "req-rate-for-topic-orders" 1%float]
              (scenarioExporter [] []) in
  let out := gaugeFromNameAndValue (HR := memRegister)
               "req-rate-for-topic-payments" 2%float c1 in
  length (calls out.1) = 1 ∧
  out.2 = OK ∧
  gauge_value out.1 "req-rate-for-topic-orders" = Some 1%float ∧
  gauges out.1 !! "req-rate-for-topic-payments" = None ∧
  series out.1 = series c1.
Proof. intros c1 out. repeat apply conj; vm_compute; reflexivity. Qed.

(** C1 at its input.  Two cycles over [outgoing-byte-rate-for-broker-7]:
    the first sees the samples 10, 20, 30, the second 10, 20, 30, 40.
    The gauge follows, the observation held by the collector does not: it
    is still the one of the first cycle. *)
Theorem histogram_frozen_after_first_cycle :
  let name := "outgoing-byte-rate-for-broker-7" in
  let first := [(name, sampleHistogram [10; 20; 30]%Z 20 30)] in
  let second := [(name, sampleHistogram [10; 20; 30; 40]%Z 25 40)] in
  let c1 := run (HR := memRegister) (HD := acceptDesc) [Cycle first]
              (scenarioExporter [] []) in
  let c2 := run (HR := memRegister) (HD := acceptDesc) [Cycle first; Cycle second]
              (scenarioExporter [] []) in
  let key := createKey c1 name in
  gauge_value c2 name = Some 40%float ∧
  prometheus.h_count <$> held c1 key = Some 3%Z ∧
  prometheus.h_count <$> held c2 key = Some 3%Z ∧
  prometheus.h_sum <$> held c2 key = Some 60%float ∧
  prometheus.h_buckets <$> held c2 key = Some [(0.5%float, 20%Z); (0.95%float, 30%Z)] ∧
  held c2 key = held c1 key.
Proof. intros. repeat apply conj; vm_compute; reflexivity. Qed.

Section FirstPublish.
Context {R : Type} {HR : Registerer R} {HD : DescCheck}.
Implicit Types (c : exporter R) (name : string) (val : float).

(** The first gauge publish of a raw name with a broker dimension, on a
    registerer that accepts the vector. *)
Lemma gauge_first_broker name val c base broker r' :
  parseMetricName name = (base, broker, "") → broker ≠ "" →
  labelsMap c !! name = None → gauges c !! name = None →
  seen c (sanitizeName base) = false →
  let lbls := <["broker" := broker]> (deref c (Some (Labels (opt c)))) in
  let g := gaugeVecFor c base (map_to_list lbls).*1 in
  Register (promRegistry c) (prometheus.GaugeVecC g) = (r', None) →
  let out := gaugeFromNameAndValue name val c in
  out.2 = OK ∧
  gauges out.1 = <[name := prometheus.With g lbls]> (gauges c) ∧
  series out.1 = gauge_set (prometheus.With g lbls) val (series c) ∧
  labelsMap out.1 = <[name := Labels (opt c)]> (labelsMap c) ∧
  heap out.1 = <[Labels (opt c) := lbls]> (heap c) ∧
  metricsNameMap out.1 = <[sanitizeName base := true]> (metricsNameMap c) ∧
  promRegistry out.1 = r' ∧
  customMetrics out.1 = customMetrics c ∧ opt out.1 = opt c ∧
  histogramBuckets out.1 = histogramBuckets c.
Proof.
  intros Hp Hb Hl Hg Hs lbls g Hreg out. subst out lbls g.
  unfold seen in Hs. simpl in Hreg.
  open_gauge.
  rewrite (metricNameAndLabels_miss_broker name c base broker Hp Hb Hl).
  simpl. rewrite Hg, Hs. simpl. rewrite lookup_insert_eq. simpl.
  rewrite (gaugeVecFor_opt c) by done. rewrite Hreg.
  simpl. rewrite lookup_insert_eq. simpl. done.
Qed.

Lemma bucketVals_two (b1 b2 : float) (percentile : float → float) :
  PrimFloat.eqb b1 b2 = false →
  bucketVals [b1; b2] percentile =
    [(b1, uint64_of_float64 (percentile b1)); (b2, uint64_of_float64 (percentile b2))].
Proof. intros H. unfold bucketVals. simpl. by rewrite H. Qed.

(** The first histogram publish of a histogram whose label set is cached,
    on a registerer that accepts the placeholder and with a descriptor
    the library accepts. *)
Lemma hist_first name (s : metrics.HistogramSnapshot) buckets c base broker topic l r' :
  parseMetricName name = (base, broker, topic) →
  ¬ (broker = "" ∧ topic = "") →
  labelsMap c !! name = Some l →
  customMetrics c !! createKey c name = None →
  Register (promRegistry c) (prometheus.CustomCollectorC (createKey c name)) = (r', None) →
  seen c (sanitizeName base +:+ "_" +:+ "histogram") = false →
  let desc := descFor c (sanitizeName base +:+ "_" +:+ "histogram") base (Some l) in
  descErr desc = None →
  let out := histogramFromNameAndMetric name (metrics.Histogram s) buckets c in
  out.2 = OK ∧
  held out.1 (createKey c name) =
    Some {| prometheus.h_desc := desc;
            prometheus.h_count := uint64_of_int64 (metrics.hs_Count s);
            prometheus.h_sum := float64_of_int64 (metrics.hs_Sum s);
            prometheus.h_buckets := bucketVals buckets (metrics.hs_Percentile s) |} ∧
  gauges out.1 = gauges c ∧ series out.1 = series c.
Proof.
  intros Hp Hd Hl Hk Hreg Hs desc Hdesc out. subst out. unfold seen in Hs.
  unfold histogramFromNameAndMetric, do_Register, NewConstHistogram, held.
  rewrite Hk, Hreg. simpl.
  rewrite (metricNameAndLabels_hit name _ base broker topic l Hp Hd) by done.
  simpl. rewrite Hs.
  change (descFor _ _ base (Some l)) with desc. rewrite Hdesc. simpl.
  by rewrite lookup_insert_eq.
Qed.

(** C8. A fresh exporter with no configured labels and the boundaries 0.5
    and 0.95 runs one cycle over a histogram named
    [outgoing-byte-rate-for-broker-7] whose reservoir holds 10, 20, 30,
    on a registerer that accepts the gauge vector and the placeholder
    collector and with a descriptor the library accepts.  The cycle
    succeeds, the gauge of the name reads 30, and the collector holds an
    observation with labels [{broker: "7"}], count 3, sum 60 and a bucket
    map that gives each boundary the quantile value at that boundary,
    converted to [uint64]. *)
Theorem histogram_cycle (ns sub : string) (debug : bool) (lbl : loc)
    (r r1 r2 : R) (P : float → float) (tb : list float) :
  let name := "outgoing-byte-rate-for-broker-7" in
  let o := {| Namespace := ns; Subsystem := sub; Labels := lbl; Debug := debug |} in
  let h := metrics.Histogram
             {| metrics.hs_Count := 3; metrics.hs_Sum := 60;
                metrics.hs_Values := [10; 20; 30]%Z; metrics.hs_Percentile := P |} in
  let c := newExporter o [(name, h)] r ∅ [0.5%float; 0.95%float] tb in
  let key := createKey c name in
  Register r (prometheus.GaugeVecC (gaugeVecFor c "outgoing-byte-rate" ["broker"]))
    = (r1, None) →
  Register r1 (prometheus.CustomCollectorC key) = (r2, None) →
  descErr {| prometheus.d_namespace := sanitizeName ns;
             prometheus.d_subsystem := sanitizeName sub;
             prometheus.d_name := "outgoing_byte_rate_histogram";
             prometheus.d_help := "outgoing_byte_rate";
             prometheus.d_constLabels := {["broker" := "7"]} |} = None →
  let out := update c in
  out.2 = OK ∧
  gauge_value out.1 name = Some 30%float ∧
  ∃ obs, held out.1 key = Some obs ∧
    prometheus.d_constLabels (prometheus.h_desc obs) = {["broker" := "7"]} ∧
    prometheus.h_count obs = 3%Z ∧
    prometheus.h_sum obs = 60%float ∧
    prometheus.h_buckets obs =
      [(0.5%float, uint64_of_float64 (P 0.5%float));
       (0.95%float, uint64_of_float64 (P 0.95%float))].
Proof.
  intros name o h c key Hg Hk Hd out.
  assert (parseMetricName name = ("outgoing-byte-rate", "7", "")) as Hp
    by (vm_compute; reflexivity).
  subst out. unfold update.
  set (c0 := if Debug (opt c) then println LogUpdate c else c).
  assert (opt c0 = o ∧ registry c0 = [(name, h)] ∧ promRegistry c0 = r ∧
          gauges c0 = ∅ ∧ customMetrics c0 = ∅ ∧ labelsMap c0 = ∅ ∧
          metricsNameMap c0 = ∅ ∧ heap c0 = {[lbl := ∅]} ∧ series c0 = [] ∧
          histogramBuckets c0 = [0.5%float; 0.95%float])
    as (Ho & Hreg & Hr & Hgs & Hcm & Hlm & Hnm & Hhp & Hse & Hhb).
  { subst c0. change (Debug (opt c)) with debug.
    destruct debug; repeat apply conj; reflexivity. }
  clearbody c0. rewrite Hreg. unfold Each, each_callback, h.
  change (last (metrics.hs_Values _)) with (Some 30%Z).
  cbv beta iota.
  change (float64_of_int64 30) with 30%float.
  assert (deref c0 (Some (Labels (opt c0))) = ∅) as Hderef.
  { rewrite Ho. simpl. by rewrite Hhp, lookup_singleton_eq. }
  destruct (gauge_first_broker name 30%float c0 "outgoing-byte-rate" "7" r1 Hp)
    as (Hok & Hg1 & Hs1 & Hl1 & Hh1 & Hn1 & Hr1 & Hc1 & Ho1 & Hb1).
  { done. }
  { by rewrite Hlm, lookup_empty. }
  { by rewrite Hgs, lookup_empty. }
  { unfold seen. by rewrite Hnm, lookup_empty. }
  { rewrite Hr, Hderef, insert_empty, map_to_list_singleton.
    rewrite <- Hg. f_equal. f_equal. unfold gaugeVecFor. by rewrite Ho. }
  rewrite Hderef, insert_empty in *.
  rewrite map_to_list_singleton in *. simpl fmap in *.
  destruct (gaugeFromNameAndValue name 30%float c0) as [c1 res1]. simpl in *.
  subst res1. rewrite Hb1, Hhb.
  assert (createKey c1 name = key) as Hkey.
  { unfold createKey, key. by rewrite Ho1, Ho. }
  destruct (hist_first name
              {| metrics.hs_Count := 3; metrics.hs_Sum := 60;
                 metrics.hs_Values := [10; 20; 30]%Z; metrics.hs_Percentile := P |}
              [0.5%float; 0.95%float] c1 "outgoing-byte-rate" "7" "" lbl r2 Hp)
    as (Hok2 & Hheld & Hg2 & Hs2).
  { intros [? _]. done. }
  { rewrite Hl1, Ho. apply lookup_insert_eq. }
  { by rewrite Hkey, Hc1, Hcm, lookup_empty. }
  { by rewrite Hkey, Hr1. }
  { unfold seen. rewrite Hn1, Hnm. rewrite lookup_insert_ne by done.
    by rewrite lookup_empty. }
  { rewrite <- Hd. unfold descFor. rewrite Ho1, Ho. simpl.
    rewrite Hh1, Ho. simpl. rewrite lookup_insert_eq. done. }
  rewrite Hkey in Hheld.
  destruct (histogramFromNameAndMetric name _ _ c1) as [c2 res2]. simpl in *.
  subst res2. split; [done|]. split.
  - unfold gauge_value. cbn [fst snd].
    rewrite Hg2, Hs2, Hg1, Hs1, lookup_insert_eq. simpl.
    apply gauge_get_set.
  - cbn [fst snd]. eexists. split; [exact Hheld|]. simpl.
    rewrite Hh1, Ho. simpl. rewrite lookup_insert_eq. simpl.
    split; [done|]. split; [done|]. split; [done|].
    by apply bucketVals_two.
Qed.

End FirstPublish.

(** The second end-to-end scenario on the in-memory registry, with the
    quantiles 20 and 30. *)
Lemma histogram_cycle_witness :
  let name := "outgoing-byte-rate-for-broker-7" in
  let c := scenarioExporter [(name, sampleHistogram [10; 20; 30]%Z 20 30)] [] in
  let out := update (HR := memRegister) (HD := acceptDesc) c in
  out.2 = OK ∧ gauge_value out.1 name = Some 30%float ∧
  ∃ obs, held out.1 (createKey c name) = Some obs ∧
    prometheus.h_count obs = 3%Z ∧ prometheus.h_sum obs = 60%float ∧
    prometheus.h_buckets obs = [(0.5%float, 20%Z); (0.95%float, 30%Z)].
Proof.
  intros name c out.
  destruct (histogram_cycle (HR := memRegister) (HD := acceptDesc)
              "sarama" "" false 1%positive []
              [prometheus.GaugeVecC
                 (gaugeVecFor c "outgoing-byte-rate" ["broker"])]
              [prometheus.GaugeVecC
                 (gaugeVecFor c "outgoing-byte-rate" ["broker"]);
               prometheus.CustomCollectorC (createKey c name)]
              (λ q, if PrimFloat.ltb q 0.7 then 20%float else 30%float)
              [0.5%float; 0.95%float])
    as (Hok & Hval & obs & Hheld & _ & Hcount & Hsum & Hb).
  - vm_compute; reflexivity.
  - vm_compute; reflexivity.
  - reflexivity.
  - split; [exact Hok|]. split; [exact Hval|].
    exists obs. split; [exact Hheld|]. split; [exact Hcount|].
    split; [exact Hsum|]. rewrite Hb. vm_compute. reflexivity.
Defined.

Section Cycle.
Context {R : Type} {HR : Registerer R} {HD : DescCheck}.
Implicit Types (c : exporter R) (name : string) (val : float).

(** Iterating over a registry in two parts: the second part starts from
    whatever state and whatever [err] the first part left, unless the
    first part panicked. *)
Lemma Each_app l1 l2 c err :
  (∀ e, err ≠ Panic e) →
  Each (l1 ++ l2) c err =
    match Each l1 c err with
    | (c', Panic e) => (c', Panic e)
    | (c', err') => Each l2 c' err'
    end.
Proof.
  revert c err; induction l1 as [|[n i] l1 IH]; intros c err Herr; simpl.
  - destruct err; try done. by destruct (Herr e).
  - destruct (each_callback n i c err) as [c1 [| e | e]]; try done;
      by apply IH.
Qed.

Lemma each_callback_gauge n i v c err :
  gauge_sample i = Some v →
  each_callback n i c err = gaugeFromNameAndValue n v c.
Proof. destruct i; simpl; intros [= <-]; done. Qed.

Lemma each_callback_then n i v c err :
  cycle_gauge i = Some v →
  each_callback n i c err = then_histogram n i (gaugeFromNameAndValue n v c).
Proof.
  unfold then_histogram. destruct i; simpl;
    try (destruct (last _) as [x|]; simpl);
    intros [= <-];
    by destruct (gaugeFromNameAndValue _ _ c) as [c2 []].
Qed.


End Cycle.



(** * Further properties of the string layer *)

Lemma sanitizeName_fix_iff s :
  sanitizeName s = s ↔ ∀ c, c ∈ bytes s → c ∈ name_chars.
Proof.
  induction s as [|a s IH]; simpl.
  - split; [intros _ c Hc; by apply elem_of_nil in Hc | done].
  - rewrite allowed_name_chars. split.
    + intros [= Ha Hs] c Hc. apply elem_of_cons in Hc as [->|Hc].
      * case_bool_decide as Hin; [done|]. subst a.
        exfalso. apply Hin. vm_compute. repeat constructor.
      * by apply IH.
    + intros Hall. rewrite bool_decide_true by (apply Hall; left).
      f_equal. apply IH. intros c Hc. apply Hall. by right.
Qed.

(** X1. Sanitizing keeps the length of a name, and leaves a name as it is
    exactly when all its characters are in [a-zA-Z0-9_:]. *)
Theorem sanitizeName_length_fix (s : string) :
  String.length (sanitizeName s) = String.length s ∧
  (sanitizeName s = s ↔ ∀ c, c ∈ bytes s → c ∈ name_chars).
Proof.
  split; [|apply sanitizeName_fix_iff].
  induction s as [|a s IH]; simpl; [done | by rewrite IH].
Qed.

Lemma parse_cases name :
  (∃ base id, name = base +:+ brokerMarker +:+ id ∧
     parseMetricName name = (base, id, "")) ∨
  (¬ contains name brokerMarker ∧
   ∃ base t, name = base +:+ topicMarker +:+ t ∧
     parseMetricName name = (base, "", t)) ∨
  (¬ contains name brokerMarker ∧ ¬ contains name topicMarker ∧
   parseMetricName name = (name, "", "")).
Proof.
  destruct (Z.le_gt_cases 0 (Index name brokerMarker)) as [Hib|Hib].
  - left. apply Index_contains in Hib.
    destruct (contains_first _ _ Hib) as (base & id & Hs & Hmin).
    exists base, id. eauto using parseMetricName_broker.
  - assert (¬ contains name brokerMarker) as Hnb
      by (intros Hc%Index_contains; lia).
    right. destruct (Z.le_gt_cases 0 (Index name topicMarker)) as [Hit|Hit].
    + left. split; [done|]. apply Index_contains in Hit.
      destruct (contains_first _ _ Hit) as (base & t & Hs & Hmin).
      exists base, t. eauto using parseMetricName_topic.
    + right. assert (¬ contains name topicMarker)
        by (intros Hc%Index_contains; lia).
      auto using parseMetricName_plain.
Qed.

(** X2. What the parser returns rebuilds the raw name: with a broker the
    name is base, marker, broker; with a topic it is base, marker, topic
    and the name holds no broker marker; never both.  When both come back
    empty the base is the whole name or the name without a marker it ends
    with. *)
Theorem parseMetricName_recompose name base broker topic :
  parseMetricName name = (base, broker, topic) →
  (broker = "" ∨ topic = "") ∧
  (broker ≠ "" → name = base +:+ brokerMarker +:+ broker) ∧
  (topic ≠ "" → name = base +:+ topicMarker +:+ topic ∧ ¬ contains name brokerMarker) ∧
  (broker = "" → topic = "" →
     name = base ∨ name = base +:+ brokerMarker ∨ name = base +:+ topicMarker).
Proof.
  assert (∀ m : string, m +:+ "" = m) as Hnil.
  { intros m. induction m as [|a m IH]; str_simpl; [done | by rewrite IH]. }
  intros Hp.
  destruct (parse_cases name)
    as [(b & i & Hn & Hq)|[(Hnb & b & t & Hn & Hq)|(Hnb & Hnt & Hq)]];
    rewrite Hq in Hp; injection Hp as <- <- <-.
  - split; [by right|]. split; [done|]. split; [done|].
    intros -> _. right; left. by rewrite Hn, Hnil.
  - split; [by left|]. split; [done|]. split; [done|].
    intros _ ->. right; right. by rewrite Hn, Hnil.
  - split; [by left|]. split; [done|]. split; [done|]. by left.
Qed.

Lemma parseMetricName_recompose_witness :
  "x-for-broker-" = "x" +:+ brokerMarker ∧
  "req-rate-for-topic-orders" = "req-rate" +:+ topicMarker +:+ "orders".
Proof.
  split.
  - destruct (parseMetricName_recompose "x-for-broker-" "x" "" "")
      as (_ & _ & _ & H); [reflexivity|].
    destruct (H eq_refl eq_refl) as [H1|[H1|H1]];
      [discriminate H1 | exact H1 | discriminate H1].
  - destruct (parseMetricName_recompose "req-rate-for-topic-orders"
                "req-rate" "" "orders") as (_ & _ & H & _); [reflexivity|].
    apply H. discriminate.
Defined.

(** * Further properties of the exporter *)

Section Caches.
Context {R : Type} {HR : Registerer R} {HD : DescCheck}.
Implicit Types (c : exporter R) (name : string) (val : float).

Lemma dimensioned_iff name base broker topic :
  parseMetricName name = (base, broker, topic) →
  dimensioned name ↔ ¬ (broker = "" ∧ topic = "").
Proof.
  intros Hp. unfold dimensioned. rewrite Hp. simpl.
  destruct (decide (broker = "")), (decide (topic = "")); naive_solver.
Qed.

(** The three ways a resolution goes. *)
Lemma resolver_effect name c :
  let base := (parseMetricName name).1.1 in
  (¬ dimensioned name ∧ metricNameAndLabels name c = (c, (base, None, true))) ∨
  (dimensioned name ∧ ∃ l, labelsMap c !! name = Some l ∧
     metricNameAndLabels name c = (c, (base, Some l, false))) ∨
  (dimensioned name ∧ labelsMap c !! name = None ∧
   ∃ k v, (k = "broker" ∨ k = "topic") ∧
     metricNameAndLabels name c =
       (set_labelsMap (<[name := Labels (opt c)]> (labelsMap c))
          (map_store (Labels (opt c)) k v c),
        (base, Some (Labels (opt c)), false))).
Proof.
  destruct (parseMetricName name) as [[base broker] topic] eqn:Hp. simpl.
  pose proof (dimensioned_iff name base broker topic Hp) as Hd.
  destruct (decide (broker = "" ∧ topic = "")) as [[-> ->]|Hne].
  - left. split; [naive_solver|]. by apply metricNameAndLabels_skip.
  - right. apply Hd in Hne as Hdim.
    destruct (labelsMap c !! name) as [l|] eqn:Hl.
    + left. split; [done|]. exists l. split; [done|].
      by apply (metricNameAndLabels_hit name c base broker topic).
    + right. split; [done|]. split; [done|].
      destruct (parseMetricName_one _ _ _ _ Hp) as [->| ->].
      * exists "topic", topic. split; [by right|].
        apply metricNameAndLabels_miss_topic; naive_solver.
      * exists "broker", broker. split; [by left|].
        apply metricNameAndLabels_miss_broker; naive_solver.
Qed.

(** X3. Resolving a raw name a second time changes nothing and returns
    what the first resolution returned: the same base name, the same map
    object, the same skip flag. *)
Theorem resolver_idempotent name c :
  metricNameAndLabels name (metricNameAndLabels name c).1
  = ((metricNameAndLabels name c).1, (metricNameAndLabels name c).2).
Proof.
  destruct (resolver_effect name c)
    as [(Hd & ->)|[(Hd & l & Hl & ->)|(Hd & Hl & k & v & Hk & ->)]]; simpl.
  - destruct (resolver_effect name c)
      as [(_ & ->)|[(Hd' & _)|(Hd' & _)]]; done.
  - destruct (resolver_effect name c)
      as [(Hd' & _)|[(_ & l' & Hl' & ->)|(_ & Hl' & _)]]; [done| |congruence].
    congruence.
  - set (c' := set_labelsMap _ _).
    destruct (resolver_effect name c')
      as [(Hd' & _)|[(_ & l' & Hl' & ->)|(_ & Hl' & _)]]; [done| |].
    + subst c'. simpl in Hl'. rewrite lookup_insert_eq in Hl'. congruence.
    + subst c'. simpl in Hl'. by rewrite lookup_insert_eq in Hl'.
Qed.

(** What a gauge publish does to the handle cache and to the values. *)
Lemma gauge_handles_effect name val c :
  let out := gaugeFromNameAndValue name val c in
  (gauges out.1 = gauges c ∧ series out.1 = series c) ∨
  (∃ h, gauges c !! name = Some h ∧ dimensioned name ∧
        gauges out.1 = gauges c ∧ series out.1 = gauge_set h val (series c) ∧
        out.2 = OK ∧ calls out.1 = calls c ∧
        metricsNameMap out.1 = metricsNameMap c) ∨
  (∃ h, gauges c !! name = None ∧ dimensioned name ∧
        is_Some (labelsMap out.1 !! name) ∧
        gauges out.1 = <[name := h]> (gauges c) ∧
        series out.1 = gauge_set h val (series c) ∧ out.2 = OK).
Proof.
  open_gauge.
  destruct (resolver_effect name c)
    as [(Hd & ->)|[(Hd & l & Hl & ->)|(Hd & Hl & k & v & Hk & ->)]]; simpl.
  - left. by destruct (Debug (opt c)).
  - destruct (gauges c !! name) as [h|] eqn:Hg; simpl.
    + right; left. exists h. done.
    + destruct (default false _); simpl; [by left|].
      destruct (Register _ _) as [r e]. crunch; try (by left);
        right; right; eexists; rewrite Hl; done.
  - destruct (gauges c !! name) as [h|] eqn:Hg; simpl.
    + right; left. exists h. done.
    + destruct (default false _); simpl; [by left|].
      destruct (Register _ _) as [r e]. crunch; try (by left);
        right; right; eexists; rewrite lookup_insert_eq; done.
Qed.

Lemma resolver_labels_effect name c :
  let c' := (metricNameAndLabels name c).1 in
  opt c' = opt c ∧
  ((labelsMap c' = labelsMap c ∧ heap c' = heap c) ∨
   (labelsMap c !! name = None ∧
    labelsMap c' = <[name := Labels (opt c)]> (labelsMap c) ∧
    ∃ k v, (k = "broker" ∨ k = "topic") ∧
      heap c' = <[Labels (opt c) := <[k := v]> (deref c (Some (Labels (opt c))))]> (heap c))).
Proof.
  destruct (resolver_effect name c)
    as [(Hd & ->)|[(Hd & l & Hl & ->)|(Hd & Hl & k & v & Hk & ->)]]; simpl;
    (split; [done|]); [by left | by left |].
  right. split; [done|]. split; [done|]. by exists k, v.
Qed.

(** The label fields after a histogram publish are those of the exporter
    or those a resolution leaves on them. *)
Lemma hist_labels_effect name goMetric buckets c :
  let out := histogramFromNameAndMetric name goMetric buckets c in
  ∃ c0, labelsMap c0 = labelsMap c ∧ heap c0 = heap c ∧ opt c0 = opt c ∧
    ((labelsMap out.1 = labelsMap c ∧ heap out.1 = heap c) ∨
     (labelsMap out.1 = labelsMap (metricNameAndLabels name c0).1 ∧
      heap out.1 = heap (metricNameAndLabels name c0).1)).
Proof.
  open_hist.
  destruct (customMetrics c !! createKey c name);
    [|destruct (Register (promRegistry c) _) as [r [e|]]]; simpl;
    try (exists c; do 3 (split; [done|]); by left);
    destruct goMetric; simpl;
    try (exists c; do 3 (split; [done|]); by left);
    match goal with
    | |- context [metricNameAndLabels ?n ?x] =>
        exists x; destruct (metricNameAndLabels n x) as [c1 [[sn l] skip]]
    end; simpl; do 3 (split; [done|]); right; crunch; done.
Qed.

Lemma gauge_hit name val c h :
  dimensioned name → gauges c !! name = Some h →
  ∃ c1, same_but_labels c c1 ∧
    gaugeFromNameAndValue name val c = (Set_ h val c1, OK).
Proof.
  intros Hd Hg. open_gauge.
  destruct (resolver_effect name c)
    as [(Hd' & ->)|[(_ & l' & Hl & ->)|(_ & Hl & k & v & Hk & ->)]];
    [done| |]; simpl; rewrite Hg.
  - exists c. by split.
  - exists (set_labelsMap (<[name := Labels (opt c)]> (labelsMap c))
              (map_store (Labels (opt c)) k v c)).
    by split.
Qed.

(** X4. Publishing a gauge for a raw name that has its handle only sets
    that handle: the publish succeeds, the value read for the name is the
    one published, nothing reaches the registerer, the handle cache and
    the name-dedup set stay as they are, and every other bound gauge
    keeps its value. *)
Theorem gauge_update_bound name val c h :
  dimensioned name → gauges c !! name = Some h →
  let out := gaugeFromNameAndValue name val c in
  out.2 = OK ∧ gauges out.1 = gauges c ∧ calls out.1 = calls c ∧
  promRegistry out.1 = promRegistry c ∧
  metricsNameMap out.1 = metricsNameMap c ∧
  gauge_value out.1 name = Some val ∧
  ∀ name' h', gauges c !! name' = Some h' → h' ≠ h →
    gauge_value out.1 name' = gauge_value c name'.
Proof.
  intros Hd Hg out. subst out.
  destruct (gauge_hit name val c h Hd Hg) as (c1 & Hf & ->).
  unfold same_but_labels in Hf.
  destruct Hf as (_ & _ & Hr & Hgs & _ & _ & _ & Hn & Hse & Hc & _).
  unfold gauge_value. simpl. rewrite Hgs, Hse, Hg. simpl.
  repeat apply conj; try done.
  - apply gauge_get_set.
  - intros name' h' -> Hne. simpl. by apply gauge_get_set_ne.
Qed.

End Caches.

Section Lifetime.
Context {R : Type} {HR : Registerer R} {HD : DescCheck}.
Implicit Types (c : exporter R) (name : string) (val : float).

Lemma gauge_handle_kept name val c n h :
  gauges c !! n = Some h → gauges (gaugeFromNameAndValue name val c).1 !! n = Some h.
Proof.
  intros Hn.
  destruct (gauge_handles_effect name val c)
    as [[-> _]|[(h0 & _ & _ & -> & _)|(h0 & Hg0 & _ & _ & -> & _)]]; try done.
  rewrite lookup_insert_ne; [done | congruence].
Qed.

(** X5. A handle, once bound to a raw name, stays bound to it for the
    life of the exporter: no publish and no cycle rebinds or drops it. *)
Theorem handles_persist (ops : list op) c name h :
  gauges c !! name = Some h → gauges (run ops c) !! name = Some h.
Proof.
  apply (inv_run (λ c', gauges c' !! name = Some h)); try done.
  - intros n v c'. apply gauge_handle_kept.
  - intros n m b c' Hc'.
    destruct (hist_frame n m b c') as (_ & _ & -> & _). done.
Qed.

Lemma resolver_cache_kept name c n l :
  labelsMap c !! n = Some l → labelsMap (metricNameAndLabels name c).1 !! n = Some l.
Proof.
  intros Hn.
  destruct (resolver_labels_effect name c) as (_ & [[-> _]|(Hmiss & -> & _)]);
    [done|].
  rewrite lookup_insert_ne; [done | congruence].
Qed.

Lemma seen_gauge_kept name val c n :
  seen c n = true → seen (gaugeFromNameAndValue name val c).1 n = true.
Proof.
  unfold seen. intros Hn.
  destruct (gauge_registry_effect name val c)
    as [(_ & -> & _)|(sn & ln & _ & -> & _)]; [done|].
  rewrite lookup_insert. by destruct (decide (sanitizeName sn = n)).
Qed.

Lemma seen_hist_kept name goMetric buckets c n :
  seen c n = true →
  seen (histogramFromNameAndMetric name goMetric buckets c).1 n = true.
Proof.
  unfold seen. intros Hn.
  destruct (hist_registry_effect name goMetric buckets c) as [_ [->|[k ->]]];
    [done|].
  rewrite lookup_insert. by destruct (decide (k = n)).
Qed.

(** X6. The name-dedup set and the label cache only grow: a name once
    recorded stays recorded, and a raw name once cached keeps the map
    object it was cached with. *)
Theorem dedup_and_cache_persist (ops : list op) c :
  (∀ n, seen c n = true → seen (run ops c) n = true) ∧
  (∀ n l, labelsMap c !! n = Some l → labelsMap (run ops c) !! n = Some l).
Proof.
  split.
  - intros n. apply (inv_run (λ c', seen c' n = true)); try done.
    + intros n' v c'. apply seen_gauge_kept.
    + intros n' m b c'. apply seen_hist_kept.
  - intros n l.
    apply (inv_run (λ c', labelsMap c' !! n = Some l)); try done.
    + intros n' v c' Hc'.
      destruct (gauge_frame n' v c') as (_ & -> & _).
      by apply resolver_cache_kept.
    + intros n' m b c' Hc'.
      destruct (hist_labels_effect n' m b c')
        as (c0 & Hl0 & _ & _ & [[-> _]|[-> _]]); [done|].
      apply resolver_cache_kept. by rewrite Hl0.
Qed.

End Lifetime.

(** After one gauge publish, a cycle over another metric keeps the
    handle, the recorded name and the cached label set of the first. *)
Lemma handles_persist_witness :
  let c := run (HR := memRegister) (HD := acceptDesc)
             [PublishGauge "req-rate-for-topic-orders" 1%float]
             (scenarioExporter [] []) in
  let c' := run (HR := memRegister) (HD := acceptDesc)
              [Cycle [("lag-for-broker-1", metrics.Counter 5)]] c in
  is_Some (gauges c' !! "req-rate-for-topic-orders").
Proof.
  intros c c'.
  destruct (gauges c !! "req-rate-for-topic-orders") as [h|] eqn:Hg;
    [|vm_compute in Hg; discriminate Hg].
  exists h.
  exact (handles_persist (HR := memRegister) (HD := acceptDesc)
           [Cycle [("lag-for-broker-1", metrics.Counter 5)]] c
           "req-rate-for-topic-orders" h Hg).
Defined.

Lemma dedup_and_cache_persist_witness :
  let c := run (HR := memRegister) (HD := acceptDesc)
             [PublishGauge "req-rate-for-topic-orders" 1%float]
             (scenarioExporter [] []) in
  let c' := run (HR := memRegister) (HD := acceptDesc)
              [Cycle [("lag-for-broker-1", metrics.Counter 5)]] c in
  seen c' "req_rate" = true ∧
  labelsMap c' !! "req-rate-for-topic-orders" = Some 1%positive.
Proof.
  intros c c'.
  destruct (dedup_and_cache_persist (HR := memRegister) (HD := acceptDesc)
              [Cycle [("lag-for-broker-1", metrics.Counter 5)]] c) as [Hs Hl].
  split.
  - apply Hs. vm_compute. reflexivity.
  - apply Hl. vm_compute. reflexivity.
Defined.

Lemma gauge_update_bound_witness :
  let c := run (HR := memRegister) (HD := acceptDesc)
             [PublishGauge "req-rate-for-topic-orders" 1%float]
             (scenarioExporter [] []) in
  gauge_value (gaugeFromNameAndValue (HR := memRegister)
                 "req-rate-for-topic-orders" 7%float c).1
    "req-rate-for-topic-orders" = Some 7%float.
Proof.
  intros c.
  destruct (gauges c !! "req-rate-for-topic-orders") as [h|] eqn:Hg;
    [|vm_compute in Hg; discriminate Hg].
  destruct (gauge_update_bound (HR := memRegister)
              "req-rate-for-topic-orders" 7%float c h) as (_ & _ & _ & _ & _ & H & _).
  - right. vm_compute. discriminate.
  - exact Hg.
  - exact H.
Defined.

Section Configuration.
Context {R : Type} {HR : Registerer R} {HD : DescCheck}.
Implicit Types (c : exporter R) (name : string) (val : float).

Lemma cache_gauge_kept name val c n l :
  labelsMap c !! n = Some l →
  labelsMap (gaugeFromNameAndValue name val c).1 !! n = Some l.
Proof.
  intros Hn. destruct (gauge_frame name val c) as (_ & -> & _).
  by apply resolver_cache_kept.
Qed.

Lemma cache_hist_kept name goMetric buckets c n l :
  labelsMap c !! n = Some l →
  labelsMap (histogramFromNameAndMetric name goMetric buckets c).1 !! n = Some l.
Proof.
  intros Hn.
  destruct (hist_labels_effect name goMetric buckets c)
    as (c0 & Hl0 & _ & _ & [[-> _]|[-> _]]); [done|].
  apply resolver_cache_kept. by rewrite Hl0.
Qed.

(** One write of the resolver seen from the configuration [c] started
    with: other map objects and other keys are as before. *)
Lemma heap_step c c1 c' :
  opt c1 = opt c →
  (heap c' = heap c1 ∨
   ∃ k v, (k = "broker" ∨ k = "topic") ∧
     heap c' = <[Labels (opt c1) := <[k := v]> (deref c1 (Some (Labels (opt c1))))]>
                 (heap c1)) →
  (∀ l, l ≠ Labels (opt c) → heap c1 !! l = heap c !! l) →
  (∀ k, k ≠ "broker" → k ≠ "topic" →
        deref c1 (Some (Labels (opt c))) !! k = deref c (Some (Labels (opt c))) !! k) →
  (∀ l, l ≠ Labels (opt c) → heap c' !! l = heap c !! l) ∧
  (∀ k, k ≠ "broker" → k ≠ "topic" →
        deref c' (Some (Labels (opt c))) !! k = deref c (Some (Labels (opt c))) !! k).
Proof.
  intros Ho [Hh|(k & v & Hk & Hh)] H1 H2.
  - unfold deref in *. rewrite Hh. auto.
  - rewrite Ho in Hh. split.
    + intros l Hl. rewrite Hh, lookup_insert_ne by done. auto.
    + intros k' Hb Ht. rewrite <- H2 by done.
      unfold deref at 1. rewrite Hh, lookup_insert_eq. simpl.
      rewrite lookup_insert_ne; [done | naive_solver].
Qed.

(** X7. The configuration is read, never replaced: options and bucket
    lists are the same for the life of the exporter, no map object other
    than the configured label map is written, and in that map only the
    keys [broker] and [topic] are: every other configured label keeps its
    value. *)
Theorem configuration_is_kept (ops : list op) c :
  let c' := run ops c in
  opt c' = opt c ∧ histogramBuckets c' = histogramBuckets c ∧
  timerBuckets c' = timerBuckets c ∧
  (∀ l, l ≠ Labels (opt c) → heap c' !! l = heap c !! l) ∧
  (∀ k, k ≠ "broker" → k ≠ "topic" →
        deref c' (Some (Labels (opt c))) !! k = deref c (Some (Labels (opt c))) !! k).
Proof.
  apply (inv_run (λ c', opt c' = opt c ∧ histogramBuckets c' = histogramBuckets c ∧
                        timerBuckets c' = timerBuckets c ∧
                        (∀ l, l ≠ Labels (opt c) → heap c' !! l = heap c !! l) ∧
                        (∀ k, k ≠ "broker" → k ≠ "topic" →
                              deref c' (Some (Labels (opt c))) !! k
                              = deref c (Some (Labels (opt c))) !! k))); try done.
  - intros n v c1 (Ho & Hb & Ht & H1 & H2).
    destruct (gauge_frame n v c1) as (Ho' & _ & Hh' & _ & _ & Hb' & Ht').
    split; [congruence|]. split; [congruence|]. split; [congruence|].
    apply (heap_step c c1); [done| |done|done].
    rewrite Hh'.
    destruct (resolver_labels_effect n c1) as (_ & [[_ ->]|(_ & _ & k & w & Hk & ->)]);
      [by left|right; eauto].
  - intros n m b c1 (Ho & Hb & Ht & H1 & H2).
    destruct (hist_frame n m b c1) as (Ho' & _ & _ & _ & _ & Hb' & Ht').
    split; [congruence|]. split; [congruence|]. split; [congruence|].
    apply (heap_step c c1); [done| |done|done].
    destruct (hist_labels_effect n m b c1)
      as (c0 & Hl0 & Hh0 & Ho0 & [[_ ->]|[_ ->]]); [by left|].
    destruct (resolver_labels_effect n c0) as (_ & [[_ ->]|(_ & _ & k & w & Hk & ->)]);
      [by left|right].
    exists k, w. split; [done|]. unfold deref. by rewrite Hh0, Ho0.
Qed.

(** X8. In an exporter started fresh only raw names with a dimension ever
    hold a handle, and a raw name that holds one has its label set cached,
    the cached set being the configured map. *)
Theorem handles_need_dimension (o : Options) reg (r : R) base hb tb
    (ops : list op) name h :
  let c := run ops (newExporter o reg r base hb tb) in
  gauges c !! name = Some h →
  dimensioned name ∧ labelsMap c !! name = Some (Labels o).
Proof.
  intros c Hg.
  assert (dimensioned name ∧ is_Some (labelsMap c !! name)) as [Hd [l Hl]].
  { revert name h Hg. subst c.
    apply (inv_run (λ c', ∀ name h, gauges c' !! name = Some h →
                          dimensioned name ∧ is_Some (labelsMap c' !! name))).
    - intros n v c1 IH name h Hg.
      destruct (gauge_handles_effect n v c1)
        as [[Hgs _]|[(h0 & _ & _ & Hgs & _)|(h0 & Hg0 & Hd0 & Hl0 & Hgs & _)]];
        rewrite Hgs in Hg.
      + destruct (IH name h Hg) as [? [l Hl]]. split; [done|].
        exists l. by apply cache_gauge_kept.
      + destruct (IH name h Hg) as [? [l Hl]]. split; [done|].
        exists l. by apply cache_gauge_kept.
      + rewrite lookup_insert in Hg. destruct (decide (n = name)) as [<-|Hne].
        * done.
        * destruct (IH name h Hg) as [? [l Hl]]. split; [done|].
          exists l. by apply cache_gauge_kept.
    - intros n m b c1 IH name h Hg.
      destruct (hist_frame n m b c1) as (_ & _ & Hgs & _).
      rewrite Hgs in Hg. destruct (IH name h Hg) as [? [l Hl]]. split; [done|].
      exists l. by apply cache_hist_kept.
    - done.
    - done.
    - intros name h. simpl. by rewrite lookup_empty. }
  split; [done|]. rewrite Hl. f_equal.
  assert (aliased c) as Ha by apply aliased_run, aliased_new.
  rewrite (Ha name l Hl). subst c. by rewrite opt_run.
Qed.

End Configuration.

Lemma handles_need_dimension_witness :
  let c := run (HR := memRegister) (HD := acceptDesc)
             [Cycle [("produce-errors", metrics.Counter 3);
                     ("req-rate-for-topic-orders", metrics.Counter 1)]]
             (newExporter scenarioOptions [] [] ∅ [] []) in
  gauges c !! "produce-errors" = None ∧
  labelsMap c !! "req-rate-for-topic-orders" = Some 1%positive.
Proof.
  intros c. split; [vm_compute; reflexivity|].
  destruct (gauges c !! "req-rate-for-topic-orders") as [h|] eqn:Hg;
    [|vm_compute in Hg; discriminate Hg].
  exact (proj2 (handles_need_dimension (HR := memRegister) (HD := acceptDesc)
                  scenarioOptions [] [] ∅ [] []
                  [Cycle [("produce-errors", metrics.Counter 3);
                          ("req-rate-for-topic-orders", metrics.Counter 1)]]
                  "req-rate-for-topic-orders" h Hg)).
Defined.

Section Collectors.
Context {R : Type} {HR : Registerer R} {HD : DescCheck}.
Implicit Types (c : exporter R) (name : string) (val : float).

Lemma not_dimensioned_skip name c :
  ¬ dimensioned name →
  metricNameAndLabels name c = (c, ((parseMetricName name).1.1, None, true)).
Proof.
  intros Hd.
  destruct (resolver_effect name c) as [(_ & H)|[(Hd' & _)|(Hd' & _)]]; done.
Qed.

(** X9. A histogram or timer without a dimension is skipped, but only
    after its placeholder collector was created and registered: the
    publish succeeds, the collector is stored under the key of the raw
    name and handed to the registerer, it holds no observation, so a
    scrape collects nothing from it, and labels, handles and the
    name-dedup set are untouched. *)
Theorem skipped_histogram_leaves_placeholder name goMetric typeName buckets c r' :
  typeNameOf goMetric = Some typeName →
  ¬ dimensioned name →
  customMetrics c !! createKey c name = None →
  Register (promRegistry c) (prometheus.CustomCollectorC (createKey c name)) = (r', None) →
  let out := histogramFromNameAndMetric name goMetric buckets c in
  out.2 = OK ∧
  calls out.1 = calls c ++ [prometheus.CustomCollectorC (createKey c name)] ∧
  promRegistry out.1 = r' ∧
  customMetrics out.1 = <[createKey c name := newCustomCollector]> (customMetrics c) ∧
  Collect <$> customMetrics out.1 !! createKey c name = Some [] ∧
  metricsNameMap out.1 = metricsNameMap c ∧ labelsMap out.1 = labelsMap c ∧
  heap out.1 = heap c ∧ gauges out.1 = gauges c ∧ series out.1 = series c.
Proof.
  intros Ht Hd Hk Hreg out. subst out. open_hist. rewrite Hk, Hreg. simpl.
  destruct goMetric; simplify_eq/=;
    rewrite not_dimensioned_skip by done; simpl;
    rewrite lookup_insert_eq; done.
Qed.

(** X10. A metric of a kind other than histogram and timer makes the
    histogram publish return the unexpected-type error, and nothing is
    published; but the placeholder collector of the raw name, when it did
    not exist, has been registered and stored by then. *)
Theorem unexpected_kind_is_an_error name goMetric buckets c :
  typeNameOf goMetric = None →
  let out := histogramFromNameAndMetric name goMetric buckets c in
  let key := createKey c name in
  (is_Some (customMetrics c !! key) → out = (c, Err ErrUnexpectedMetricType)) ∧
  (∀ r', customMetrics c !! key = None →
     Register (promRegistry c) (prometheus.CustomCollectorC key) = (r', None) →
     out.2 = Err ErrUnexpectedMetricType ∧
     customMetrics out.1 = <[key := newCustomCollector]> (customMetrics c) ∧
     calls out.1 = calls c ++ [prometheus.CustomCollectorC key] ∧
     metricsNameMap out.1 = metricsNameMap c ∧ labelsMap out.1 = labelsMap c ∧
     heap out.1 = heap c ∧ gauges out.1 = gauges c).
Proof.
  intros Ht out key. subst out key. open_hist. split.
  - intros [col ->]. by destruct goMetric.
  - intros r' -> ->. simpl. by destruct goMetric.
Qed.

(** When the registerer refuses the placeholder collector the histogram
    publish panics, whatever the metric: the collector is not stored and
    nothing else of the exporter changes. *)
Lemma refused_placeholder_panics name goMetric buckets c r' e :
  customMetrics c !! createKey c name = None →
  Register (promRegistry c) (prometheus.CustomCollectorC (createKey c name))
    = (r', Some e) →
  histogramFromNameAndMetric name goMetric buckets c
  = (set_calls (calls c ++ [prometheus.CustomCollectorC (createKey c name)])
       (set_promRegistry r' c), Panic e).
Proof. intros Hk Hreg. open_hist. by rewrite Hk, Hreg. Qed.

(** X11. The first publish of a timer with a cached label set, on a
    registerer that accepts its placeholder and with a descriptor the
    library accepts, stores an observation named after the sanitized base
    name with the suffix [_timer], with the timer's count and sum and the
    bucket map of its quantiles; a scrape of the collector yields exactly
    that observation. *)
Theorem timer_first_observation name (s : metrics.TimerSnapshot) buckets c
    base broker topic l r' :
  parseMetricName name = (base, broker, topic) →
  ¬ (broker = "" ∧ topic = "") →
  labelsMap c !! name = Some l →
  customMetrics c !! createKey c name = None →
  Register (promRegistry c) (prometheus.CustomCollectorC (createKey c name)) = (r', None) →
  seen c (sanitizeName base +:+ "_" +:+ "timer") = false →
  let desc := descFor c (sanitizeName base +:+ "_" +:+ "timer") base (Some l) in
  descErr desc = None →
  let out := histogramFromNameAndMetric name (metrics.Timer s) buckets c in
  let obs := {| prometheus.h_desc := desc;
                prometheus.h_count := uint64_of_int64 (metrics.ts_Count s);
                prometheus.h_sum := float64_of_int64 (metrics.ts_Sum s);
                prometheus.h_buckets := bucketVals buckets (metrics.ts_Percentile s) |} in
  out.2 = OK ∧
  held out.1 (createKey c name) = Some obs ∧
  Collect <$> customMetrics out.1 !! createKey c name = Some [obs] ∧
  seen out.1 (sanitizeName base +:+ "_" +:+ "timer") = true ∧
  gauges out.1 = gauges c ∧ series out.1 = series c.
Proof.
  intros Hp Hd Hl Hk Hreg Hs desc Hdesc out obs. subst out. unfold seen in *.
  unfold histogramFromNameAndMetric, do_Register, NewConstHistogram, held.
  rewrite Hk, Hreg. simpl.
  rewrite (metricNameAndLabels_hit name _ base broker topic l Hp Hd) by done.
  simpl. rewrite Hs.
  change (descFor _ _ base (Some l)) with desc. rewrite Hdesc. simpl.
  by rewrite !lookup_insert_eq.
Qed.

End Collectors.

Lemma skipped_histogram_leaves_placeholder_witness :
  let c := scenarioExporter [] [] in
  let t := metrics.Timer {| metrics.ts_Count := 2; metrics.ts_Sum := 9;
                            metrics.ts_Percentile := λ _, 4%float;
                            metrics.ts_Rate1 := 1%float |} in
  let out := histogramFromNameAndMetric (HR := memRegister) (HD := acceptDesc)
               "request-latency" t [0.5%float] c in
  out.2 = OK ∧ calls out.1 = [prometheus.CustomCollectorC "sarama__request-latency"].
Proof.
  intros c t out.
  destruct (skipped_histogram_leaves_placeholder (HR := memRegister) (HD := acceptDesc)
              "request-latency" t "timer" [0.5%float] c
              [prometheus.CustomCollectorC "sarama__request-latency"])
    as (Hok & Hcalls & _).
  - reflexivity.
  - intros [H|H]; vm_compute in H; by apply H.
  - vm_compute; reflexivity.
  - vm_compute; reflexivity.
  - split; [exact Hok | exact Hcalls].
Defined.

Lemma unexpected_kind_is_an_error_witness :
  let c := scenarioExporter [] [] in
  (histogramFromNameAndMetric (HR := memRegister) (HD := acceptDesc)
     "lag-for-broker-1" (metrics.Counter 3) [0.5%float] c).2
  = Err ErrUnexpectedMetricType.
Proof.
  intros c.
  destruct (unexpected_kind_is_an_error (HR := memRegister) (HD := acceptDesc)
              "lag-for-broker-1" (metrics.Counter 3) [0.5%float] c) as [_ H].
  - reflexivity.
  - destruct (H [prometheus.CustomCollectorC "sarama__lag-for-broker-1"])
      as [Herr _]; [vm_compute; reflexivity | vm_compute; reflexivity | exact Herr].
Defined.

Lemma timer_first_observation_witness :
  let c := run (HR := memRegister) (HD := acceptDesc)
             [PublishGauge "latency-for-broker-1" 1%float] (scenarioExporter [] []) in
  let t := {| metrics.ts_Count := 2; metrics.ts_Sum := 9;
              metrics.ts_Percentile := λ _, 4%float; metrics.ts_Rate1 := 1%float |} in
  let out := histogramFromNameAndMetric (HR := memRegister) (HD := acceptDesc)
               "latency-for-broker-1" (metrics.Timer t) [0.5%float] c in
  out.2 = OK ∧
  (prometheus.h_count <$> held out.1 "sarama__latency-for-broker-1") = Some 2%Z.
Proof.
  intros c t out.
  destruct (timer_first_observation (HR := memRegister) (HD := acceptDesc)
              "latency-for-broker-1" t [0.5%float] c "latency" "1" "" 1%positive
              (promRegistry c ++ [prometheus.CustomCollectorC "sarama__latency-for-broker-1"]))
    as (Hok & Hheld & _).
  - reflexivity.
  - intros [H _]; discriminate H.
  - vm_compute; reflexivity.
  - vm_compute; reflexivity.
  - vm_compute; reflexivity.
  - vm_compute; reflexivity.
  - reflexivity.
  - split; [exact Hok|]. subst out.
    change "sarama__latency-for-broker-1" with (createKey c "latency-for-broker-1").
    rewrite Hheld. reflexivity.
Defined.

Section SteadyCycle.
Context {R : Type} {HR : Registerer R} {HD : DescCheck}.
Implicit Types (c : exporter R) (name : string) (val : float).

(** X12. Metrics of a kind [update] has no case for do not take part in
    a cycle: iterating over a registry and iterating over it with those
    entries left out end in the same state with the same error. *)
Theorem unsupported_kinds_are_ignored (l : list (string * metrics.Metric)) c err :
  (∀ e, err ≠ Panic e) →
  Each l c err = Each (List.filter (λ x, negb (unsupported x.2)) l) c err.
Proof.
  revert c err; induction l as [|[n i] l IH]; intros c err Herr; [done|].
  destruct (unsupported i) eqn:Hu; simpl; rewrite Hu; simpl.
  - destruct i; try discriminate Hu. simpl.
    destruct err; try (by apply IH). by destruct (Herr e).
  - destruct (each_callback n i c err) as [c1 [| e | e]]; try done;
      by apply IH.
Qed.

Lemma gauge_with_handle name val c :
  is_Some (gauges c !! name) →
  let out := gaugeFromNameAndValue name val c in
  out.2 = OK ∧ gauges out.1 = gauges c ∧ calls out.1 = calls c ∧
  promRegistry out.1 = promRegistry c ∧ metricsNameMap out.1 = metricsNameMap c ∧
  customMetrics out.1 = customMetrics c.
Proof.
  intros [h Hg]. open_gauge.
  destruct (resolver_effect name c)
    as [(Hd & ->)|[(Hd & l & Hl & ->)|(Hd & Hl & k & v & Hk & ->)]]; simpl.
  - by destruct (Debug (opt c)).
  - by rewrite Hg.
  - by rewrite Hg.
Qed.

(** X13. A cycle over metrics that all publish one gauge and all have
    their handle is pure value setting: it succeeds, registers nothing and
    leaves the handle cache, the name-dedup set and the collectors as
    they are. *)
Theorem steady_cycle (l : list (string * metrics.Metric)) c :
  (∀ n i, (n, i) ∈ l → is_Some (gauge_sample i) ∧ is_Some (gauges c !! n)) →
  let out := Each l c OK in
  out.2 = OK ∧ gauges out.1 = gauges c ∧ calls out.1 = calls c ∧
  promRegistry out.1 = promRegistry c ∧ metricsNameMap out.1 = metricsNameMap c ∧
  customMetrics out.1 = customMetrics c.
Proof.
  revert c; induction l as [|[n i] l IH]; intros c Hall; simpl; [done|].
  destruct (Hall n i) as [[v Hv] Hh]; [left|].
  rewrite (each_callback_gauge n i v) by done.
  destruct (gauge_with_handle n v c Hh) as (Hok & Hg & Hc & Hr & Hn & Hm).
  destruct (gaugeFromNameAndValue n v c) as [c1 res]. simpl in *. subst res.
  destruct (IH c1) as (Hok' & Hg' & Hc' & Hr' & Hn' & Hm').
  { intros n' i' Hin. destruct (Hall n' i') as [? ?]; [by right|].
    split; [done|]. by rewrite Hg. }
  repeat apply conj; congruence.
Qed.

(** X14. A histogram with an empty reservoir publishes no gauge, and when
    an earlier metric of the cycle left an error it publishes nothing at
    all: the exporter is as the earlier metrics left it and the earlier
    error is what comes out of the iteration. *)
Theorem empty_histogram_passes_error_on (l : list (string * metrics.Metric))
    n (s : metrics.HistogramSnapshot) c c1 e :
  metrics.hs_Values s = [] →
  Each l c OK = (c1, Err e) →
  Each (l ++ [(n, metrics.Histogram s)]) c OK = (c1, Err e).
Proof.
  intros Hv Hl. rewrite Each_app by done. rewrite Hl. simpl. by rewrite Hv.
Qed.

(** X15. When the registerer refuses the placeholder collector of a
    timer, the cycle panics at that timer: the metrics after it are not
    visited, and the exporter is left as the gauge publish of the timer
    left it, with the refused call on record. *)
Theorem cycle_panics_at_refused_placeholder c l1 n (s : metrics.TimerSnapshot)
    l2 c1 r1 c2 r' e :
  registry c = l1 ++ (n, metrics.Timer s) :: l2 →
  Each l1 (if Debug (opt c) then println LogUpdate c else c) OK = (c1, r1) →
  (∀ e', r1 ≠ Panic e') →
  gaugeFromNameAndValue n (metrics.ts_Rate1 s) c1 = (c2, OK) →
  customMetrics c2 !! createKey c2 n = None →
  Register (promRegistry c2) (prometheus.CustomCollectorC (createKey c2 n))
    = (r', Some e) →
  update c
  = (set_calls (calls c2 ++ [prometheus.CustomCollectorC (createKey c2 n)])
       (set_promRegistry r' c2), Panic e).
Proof.
  intros Hreg Hl Hr1 Hg Hk Hrefuse. unfold update.
  assert (registry (if Debug (opt c) then println LogUpdate c else c)
          = l1 ++ (n, metrics.Timer s) :: l2)
    as -> by (by destruct (Debug (opt c))).
  rewrite Each_app by done. rewrite Hl.
  assert (Each ((n, metrics.Timer s) :: l2) c1 r1
          = (set_calls (calls c2 ++ [prometheus.CustomCollectorC (createKey c2 n)])
               (set_promRegistry r' c2), Panic e)) as Hpanic.
  { simpl. rewrite Hg.
    by rewrite (refused_placeholder_panics n _ _ c2 r' e Hk Hrefuse). }
  destruct r1 as [| e1 | e1]; [done | done | by destruct (Hr1 e1)].
Qed.

End SteadyCycle.

Lemma unsupported_kinds_are_ignored_witness :
  Each (HR := memRegister) (HD := acceptDesc)
    [("health", metrics.Healthcheck); ("lag-for-broker-1", metrics.Counter 3)]
    (scenarioExporter [] []) OK
  = Each (HR := memRegister) (HD := acceptDesc)
      [("lag-for-broker-1", metrics.Counter 3)] (scenarioExporter [] []) OK.
Proof.
  apply (unsupported_kinds_are_ignored (HR := memRegister) (HD := acceptDesc)
           [("health", metrics.Healthcheck); ("lag-for-broker-1", metrics.Counter 3)]).
  intros e H. discriminate H.
Defined.

Lemma steady_cycle_witness :
  let c := run (HR := memRegister) (HD := acceptDesc)
             [PublishGauge "lag-for-broker-1" 1%float] (scenarioExporter [] []) in
  let out := Each (HR := memRegister) (HD := acceptDesc)
               [("lag-for-broker-1", metrics.Counter 5)] c OK in
  out.2 = OK ∧ calls out.1 = calls c.
Proof.
  intros c out.
  destruct (steady_cycle (HR := memRegister) (HD := acceptDesc)
              [("lag-for-broker-1", metrics.Counter 5)] c) as (Hok & _ & Hc & _).
  - intros n i Hin. apply list_elem_of_singleton in Hin. injection Hin as -> ->.
    split; [eexists; reflexivity|].
    destruct (gauges c !! "lag-for-broker-1") as [h|] eqn:Hg;
      [by eexists | vm_compute in Hg; discriminate Hg].
  - split; [exact Hok | exact Hc].
Defined.

Lemma empty_histogram_passes_error_on_witness :
  let l := [("a-for-broker-1", metrics.Counter 1)] in
  let h := {| metrics.hs_Count := 0; metrics.hs_Sum := 0; metrics.hs_Values := [];
              metrics.hs_Percentile := λ _, 0%float |} in
  (Each (HR := memRegister) (HD := acceptDesc)
     (l ++ [("b-for-broker-1", metrics.Histogram h)]) twoCounters OK).2
  = Err ErrNotGaugeVec.
Proof.
  intros l h.
  rewrite (empty_histogram_passes_error_on (HR := memRegister) (HD := acceptDesc)
             l "b-for-broker-1" h twoCounters
             (Each (HR := memRegister) (HD := acceptDesc) l twoCounters OK).1
             ErrNotGaugeVec).
  - reflexivity.
  - reflexivity.
  - vm_compute. reflexivity.
Defined.

Lemma cycle_panics_at_refused_placeholder_witness :
  let t := {| metrics.ts_Count := 2; metrics.ts_Sum := 9;
              metrics.ts_Percentile := λ _, 4%float; metrics.ts_Rate1 := 1%float |} in
  let c := newExporter scenarioOptions
             [("request-latency", metrics.Timer t); ("lag-for-broker-1", metrics.Counter 3)]
             tt ∅ [] [] in
  (update (HR := refuseRegister) (HD := acceptDesc) c).2 = Panic (ErrLibrary "refused") ∧
  gauges (update (HR := refuseRegister) (HD := acceptDesc) c).1 = ∅.
Proof.
  intros t c.
  rewrite (cycle_panics_at_refused_placeholder (HR := refuseRegister) (HD := acceptDesc)
             c [] "request-latency" t [("lag-for-broker-1", metrics.Counter 3)]
             c OK c tt (ErrLibrary "refused")).
  - split; reflexivity.
  - reflexivity.
  - reflexivity.
  - intros e H; discriminate H.
  - vm_compute. reflexivity.
  - vm_compute. reflexivity.
  - reflexivity.
Defined.

(** * Keys, buckets and counts *)

Lemma string_app_inv_head (p a b : string) : p +:+ a = p +:+ b → a = b.
Proof.
  induction p as [|x p IH]; str_simpl; [done|]. intros [= H]. by apply IH.
Qed.

Lemma bucket_store_elem k v m x :
  x ∈ bucket_store k v m → x = (k, v) ∨ x ∈ m.
Proof.
  induction m as [|[k' v'] m IH]; simpl.
  - intros ->%list_elem_of_singleton. by left.
  - destruct (PrimFloat.eqb k' k).
    + intros [->|Hx]%elem_of_cons; [by left|]. right. by right.
    + intros [->|Hx]%elem_of_cons; [right; by left|].
      destruct (IH Hx) as [->|Hm]; [by left|]. right. by right.
Qed.

Lemma bucket_store_length k v m :
  length (bucket_store k v m) ≤ S (length m).
Proof.
  induction m as [|[k' v'] m IH]; simpl; [lia|].
  destruct (PrimFloat.eqb k' k); simpl; lia.
Qed.

(** X16. Every entry of the bucket map belongs to a boundary of the
    bucket list and carries the quantile at that boundary converted to
    [uint64]; the map has no more entries than there are boundaries. *)
Theorem bucketVals_entries (buckets : list float) (percentile : float → float) :
  (∀ k v, (k, v) ∈ bucketVals buckets percentile →
          k ∈ buckets ∧ v = uint64_of_float64 (percentile k)) ∧
  length (bucketVals buckets percentile) ≤ length buckets.
Proof.
  unfold bucketVals.
  assert (∀ (bs : list float) (acc : list (float * Z)) (seen_bs : list float),
            (∀ k v, (k, v) ∈ acc → k ∈ seen_bs ∧ v = uint64_of_float64 (percentile k)) →
            (∀ k v, (k, v) ∈ foldl (λ m b, bucket_store b (uint64_of_float64 (percentile b)) m)
                                   acc bs →
                    k ∈ seen_bs ++ bs ∧ v = uint64_of_float64 (percentile k)) ∧
            length (foldl (λ m b, bucket_store b (uint64_of_float64 (percentile b)) m) acc bs)
              ≤ length acc + length bs) as H.
  { induction bs as [|b bs IH]; intros acc seen_bs Hacc; simpl.
    - split; [|lia]. intros k v Hin. rewrite app_nil_r. auto.
    - destruct (IH (bucket_store b (uint64_of_float64 (percentile b)) acc)
                  (seen_bs ++ [b])) as [H1 H2].
      + intros k v Hin. apply bucket_store_elem in Hin as [[= -> ->]|Hin].
        * split; [|done]. apply elem_of_app. right. by left.
        * destruct (Hacc k v Hin). split; [|done]. apply elem_of_app. by left.
      + split.
        * intros k v Hin. destruct (H1 k v Hin) as [Hk Hv]. split; [|done].
          by rewrite <- (assoc_L (++)) in Hk.
        * pose proof (bucket_store_length b (uint64_of_float64 (percentile b)) acc).
          lia. }
  destruct (H buckets [] []) as [H1 H2].
  - intros k v Hin. by apply elem_of_nil in Hin.
  - split; [exact H1 | exact H2].
Qed.

(** X17. For one configuration the collector key determines the raw
    name: two raw names never share a collector. *)
Theorem createKey_injective {R : Type} (c : exporter R) (n1 n2 : string) :
  createKey c n1 = createKey c n2 → n1 = n2.
Proof.
  unfold createKey. intros H.
  do 4 apply string_app_inv_head in H. exact H.
Qed.

Lemma bucketVals_entries_witness :
  (0.5%float, 20%Z) ∈ bucketVals [0.5%float; 0.95%float]
                        (λ q, if PrimFloat.ltb q 0.7 then 20%float else 30%float) ∧
  20%Z = uint64_of_float64 20%float.
Proof.
  assert ((0.5%float, 20%Z) ∈ bucketVals [0.5%float; 0.95%float]
            (λ q, if PrimFloat.ltb q 0.7 then 20%float else 30%float)) as Hin.
  { vm_compute. left. }
  split; [exact Hin|].
  destruct (bucketVals_entries [0.5%float; 0.95%float]
              (λ q, if PrimFloat.ltb q 0.7 then 20%float else 30%float)) as [H _].
  destruct (H _ _ Hin) as [_ Hv]. rewrite Hv. reflexivity.
Defined.

Lemma createKey_injective_witness :
  createKey (scenarioExporter [] []) "a-for-broker-1" = "sarama__a-for-broker-1" ∧
  "a-for-broker-1" = "a-for-broker-1".
Proof.
  split; [reflexivity|].
  exact (createKey_injective (scenarioExporter [] []) _ _ eq_refl).
Defined.

Section Bookkeeping.
Context {R : Type} {HR : Registerer R} {HD : DescCheck}.
Implicit Types (c : exporter R) (name : string) (val : float).

Lemma hist_customMetrics name goMetric buckets c :
  let out := histogramFromNameAndMetric name goMetric buckets c in
  let key := createKey c name in
  customMetrics out.1 = customMetrics c ∨
  ∃ col, customMetrics out.1 = <[key := col]> (customMetrics c) ∧
    (is_Some (customMetrics c !! key) ∨
     calls out.1 = calls c ++ [prometheus.CustomCollectorC key]).
Proof.
  open_hist.
  destruct (customMetrics c !! createKey c name) eqn:Hk;
    [|destruct (Register (promRegistry c) _) as [r [e|]]]; simpl;
    try (by left);
    destruct goMetric; simpl; try (by left);
    try (right; eexists; split; [reflexivity | by right]);
    at_resolver; simpl in *; crunch;
    repeat match goal with
           | H : customMetrics _ = _ |- _ => rewrite H; clear H
           | H : calls _ = _ |- _ => rewrite H; clear H
           end;
    rewrite ?insert_insert_eq;
    first [by left
          |right; eexists; split;
           [reflexivity | first [left; by eexists | by right]]].
Qed.

Lemma hist_collectors_effect name goMetric buckets c k :
  let out := histogramFromNameAndMetric name goMetric buckets c in
  is_Some (customMetrics out.1 !! k) →
  is_Some (customMetrics c !! k) ∨ prometheus.CustomCollectorC k ∈ calls out.1.
Proof.
  intros out. subst out.
  destruct (hist_customMetrics name goMetric buckets c)
    as [->|(col & -> & Hor)]; [by left|].
  rewrite lookup_insert.
  destruct (decide (createKey c name = k)) as [<-|]; [|by left].
  intros _. destruct Hor as [Hs| ->]; [by left|].
  right. apply elem_of_app. right. by left.
Qed.

Lemma calls_gauge_kept name val c x :
  x ∈ calls c → x ∈ calls (gaugeFromNameAndValue name val c).1.
Proof.
  intros Hx.
  destruct (gauge_registry_effect name val c)
    as [(-> & _)|(sn & ln & _ & _ & ->)]; [done|].
  apply elem_of_app. by left.
Qed.

Lemma calls_hist_kept name goMetric buckets c x :
  x ∈ calls c → x ∈ calls (histogramFromNameAndMetric name goMetric buckets c).1.
Proof.
  intros Hx.
  destruct (hist_registry_effect name goMetric buckets c) as [[->|[key ->]] _];
    [done|].
  apply elem_of_app. by left.
Qed.

(** X19. In an exporter started fresh every collector it stores was
    handed to the registerer: no placeholder is kept that the exporter
    library has not been given. *)
Theorem stored_collectors_were_registered (o : Options) reg (r : R) base hb tb
    (ops : list op) (key : string) :
  let c := run ops (newExporter o reg r base hb tb) in
  is_Some (customMetrics c !! key) → prometheus.CustomCollectorC key ∈ calls c.
Proof.
  intros c. subst c. revert key.
  apply (inv_run (λ c', ∀ key, is_Some (customMetrics c' !! key) →
                        prometheus.CustomCollectorC key ∈ calls c')).
  - intros n v c1 IH key Hk.
    destruct (gauge_frame n v c1) as (_ & _ & _ & _ & Hcm & _).
    rewrite Hcm in Hk. by apply calls_gauge_kept, IH.
  - intros n m b c1 IH key Hk.
    destruct (hist_collectors_effect n m b c1 key Hk) as [Hold|Hin]; [|done].
    by apply calls_hist_kept, IH.
  - done.
  - done.
  - intros key. simpl. rewrite lookup_empty. by intros [? ?].
Qed.

(** X20. The keys of the configured label map only accumulate: a label
    present at some time, configured or written by the resolver, is
    present in the label set of every later raw name. *)
Theorem label_keys_accumulate (ops : list op) c (k : string) :
  is_Some (deref c (Some (Labels (opt c))) !! k) →
  is_Some (deref (run ops c) (Some (Labels (opt c))) !! k).
Proof.
  intros Hk.
  assert (∀ c1 c',
            opt c1 = opt c →
            (heap c' = heap c1 ∨
             ∃ k' v, (k' = "broker" ∨ k' = "topic") ∧
               heap c' = <[Labels (opt c1) :=
                             <[k' := v]> (deref c1 (Some (Labels (opt c1))))]> (heap c1)) →
            is_Some (deref c1 (Some (Labels (opt c))) !! k) →
            is_Some (deref c' (Some (Labels (opt c))) !! k)) as Hstep.
  { intros c1 c' Ho [Hh|(k' & v & _ & Hh)] H1.
    - unfold deref in *. by rewrite Hh.
    - rewrite Ho in Hh. unfold deref at 1. rewrite Hh, lookup_insert_eq. simpl.
      rewrite lookup_insert. destruct (decide (k' = k)); [by eexists | done]. }
  assert (opt (run ops c) = opt c ∧
          is_Some (deref (run ops c) (Some (Labels (opt c))) !! k)) as [_ H];
    [|exact H].
  apply (inv_run (λ c', opt c' = opt c ∧
                        is_Some (deref c' (Some (Labels (opt c))) !! k)));
    [| |done|done|by split].
  - intros n v c1 [Ho H1].
    destruct (gauge_frame n v c1) as (Ho' & _ & Hh' & _).
    split; [congruence|]. apply (Hstep c1); [done| |done].
    rewrite Hh'.
    destruct (resolver_labels_effect n c1) as (_ & [[_ ->]|(_ & _ & k' & w & Hk' & ->)]);
      [by left|right; eauto].
  - intros n m b c1 [Ho H1].
    destruct (hist_frame n m b c1) as (Ho' & _).
    split; [congruence|]. apply (Hstep c1); [done| |done].
    destruct (hist_labels_effect n m b c1)
      as (c0 & Hl0 & Hh0 & Ho0 & [[_ ->]|[_ ->]]); [by left|].
    destruct (resolver_labels_effect n c0) as (_ & [[_ ->]|(_ & _ & k' & w & Hk' & ->)]);
      [by left|right].
    exists k', w. split; [done|]. unfold deref. by rewrite Hh0, Ho0.
Qed.

End Bookkeeping.

Lemma stored_collectors_were_registered_witness :
  let c := run (HR := memRegister) (HD := acceptDesc)
             [Cycle [("outgoing-byte-rate-for-broker-7",
                      sampleHistogram [10; 20; 30]%Z 20 30)]]
             (newExporter scenarioOptions [] [] ∅ [0.5%float] []) in
  prometheus.CustomCollectorC "sarama__outgoing-byte-rate-for-broker-7" ∈ calls c.
Proof.
  intros c.
  apply (stored_collectors_were_registered (HR := memRegister) (HD := acceptDesc)
           scenarioOptions [] [] ∅ [0.5%float] []
           [Cycle [("outgoing-byte-rate-for-broker-7",
                    sampleHistogram [10; 20; 30]%Z 20 30)]]).
  destruct (customMetrics
              (run (HR := memRegister) (HD := acceptDesc)
                 [Cycle [("outgoing-byte-rate-for-broker-7",
                          sampleHistogram [10; 20; 30]%Z 20 30)]]
                 (newExporter scenarioOptions [] [] ∅ [0.5%float] []))
              !! "sarama__outgoing-byte-rate-for-broker-7") as [col|] eqn:Hc;
    [by eexists | vm_compute in Hc; discriminate Hc].
Defined.

(** A broker written by an earlier metric is in the label set of a later
    topic metric. *)
Lemma label_keys_accumulate_witness :
  let c := run (HR := memRegister) (HD := acceptDesc)
             [PublishGauge "lag-for-broker-1" 1%float] (scenarioExporter [] []) in
  let c' := run (HR := memRegister) (HD := acceptDesc)
              [PublishGauge "req-rate-for-topic-orders" 2%float] c in
  is_Some (deref c' (labelsMap c' !! "req-rate-for-topic-orders") !! "broker").
Proof.
  intros c c'.
  assert (labelsMap c' !! "req-rate-for-topic-orders" = Some (Labels (opt c))) as ->
    by (vm_compute; reflexivity).
  apply (label_keys_accumulate (HR := memRegister) (HD := acceptDesc)
           [PublishGauge "req-rate-for-topic-orders" 2%float] c "broker").
  exists "1". vm_compute. reflexivity.
Defined.

(** * Registration, at most once *)

Section OncePerName.
Context {R : Type} {HR : Registerer R} {HD : DescCheck}.
Implicit Types (c : exporter R) (name : string) (val : float).

(** The resolution in front of the name-dedup check caches the label set
    of a dimensioned raw name, whatever the check then finds. *)
Lemma gauge_caches_labels name val c :
  dimensioned name →
  is_Some (labelsMap (gaugeFromNameAndValue name val c).1 !! name).
Proof.
  intros Hd. destruct (gauge_frame name val c) as (_ & -> & _).
  destruct (resolver_effect name c)
    as [(Hd' & _)|[(_ & l & Hl & ->)|(_ & Hl & k & v & Hk & ->)]]; [done| |];
    simpl.
  - by exists l.
  - rewrite lookup_insert_eq. by eexists.
Qed.

(** The placeholder collector of a raw name that has none is created and
    registered in front of the name-dedup check, whatever the check then
    finds. *)
Lemma hist_registers_placeholder name goMetric buckets c r' :
  customMetrics c !! createKey c name = None →
  Register (promRegistry c) (prometheus.CustomCollectorC (createKey c name))
    = (r', None) →
  let out := histogramFromNameAndMetric name goMetric buckets c in
  calls out.1 = calls c ++ [prometheus.CustomCollectorC (createKey c name)] ∧
  is_Some (customMetrics out.1 !! createKey c name).
Proof.
  intros Hk Hreg. open_hist. rewrite Hk, Hreg. simpl.
  destruct goMetric; simpl;
    try (rewrite lookup_insert_eq; split; [done | by eexists]);
    at_resolver; simpl in *; crunch;
    repeat match goal with
           | H : customMetrics _ = _ |- _ => rewrite H; clear H
           | H : calls _ = _ |- _ => rewrite H; clear H
           end;
    rewrite ?lookup_insert_eq; (split; [done | by eexists]).
Qed.

(** C4 (amended).  Over the life of an exporter no two gauge vectors
    handed to [Register] carry the same sanitized name.  Once the
    name-dedup set contains the name, a gauge publish for it hands nothing
    to the registerer, leaves the set as it is and returns success, and a
    histogram publish for the suffixed name hands no vector to the
    registerer, leaves the set as it is and returns success unless
    registering the placeholder collector panics.  On a miss the name is
    inserted before the vector is created and registered: it is in the
    set afterwards whatever [Register] answered, and exactly that one
    vector was handed over.  What stands in front of the check is not
    skipped, whatever the set contains: a gauge publish caches the label
    set of a dimensioned raw name, and a histogram publish creates and
    registers the placeholder collector of a raw name that has none. *)
Theorem registration_at_most_once :
  (∀ o reg (r : R) base hb tb (ops : list op),
     NoDup (vecNames (calls (run ops (newExporter o reg r base hb tb))))) ∧
  (∀ c name val,
     seen c (sanitizeName (parseMetricName name).1.1) = true →
     let out := gaugeFromNameAndValue name val c in
     out.2 = OK ∧ calls out.1 = calls c ∧ promRegistry out.1 = promRegistry c ∧
     metricsNameMap out.1 = metricsNameMap c) ∧
  (∀ c name goMetric buckets typeName,
     typeNameOf goMetric = Some typeName →
     seen c (sanitizeName (parseMetricName name).1.1 +:+ "_" +:+ typeName) = true →
     let out := histogramFromNameAndMetric name goMetric buckets c in
     (out.2 = OK ∨ ∃ e, out.2 = Panic e) ∧
     vecNames (calls out.1) = vecNames (calls c) ∧
     metricsNameMap out.1 = metricsNameMap c) ∧
  (∀ c name val c1 shortName labels,
     metricNameAndLabels name c = (c1, (shortName, labels, false)) →
     gauges c !! name = None →
     seen c (sanitizeName shortName) = false →
     let out := gaugeFromNameAndValue name val c in
     seen out.1 (sanitizeName shortName) = true ∧
     calls out.1 =
       calls c ++ [prometheus.GaugeVecC
                     (gaugeVecFor c shortName (map_to_list (deref c1 labels)).*1)]) ∧
  (∀ c name val,
     dimensioned name →
     is_Some (labelsMap (gaugeFromNameAndValue name val c).1 !! name)) ∧
  (∀ c name goMetric buckets r',
     customMetrics c !! createKey c name = None →
     Register (promRegistry c) (prometheus.CustomCollectorC (createKey c name))
       = (r', None) →
     let out := histogramFromNameAndMetric name goMetric buckets c in
     calls out.1 = calls c ++ [prometheus.CustomCollectorC (createKey c name)] ∧
     is_Some (customMetrics out.1 !! createKey c name)).
Proof.
  repeat apply conj.
  - intros. apply once_run, once_new.
  - intros c name val. apply gauge_seen.
  - intros c name goMetric buckets typeName Ht Hs.
    destruct (hist_seen name goMetric buckets typeName c Ht Hs) as (? & ? & ? & _).
    done.
  - intros c name val c1 shortName labels. apply gauge_unseen.
  - intros c name val. apply gauge_caches_labels.
  - intros c name goMetric buckets r'. apply hist_registers_placeholder.
Qed.

End OncePerName.

(** The gauge of [req-rate-for-topic-orders] published twice: the second
    publish finds the name in the set, registers nothing and succeeds. *)
Lemma registration_at_most_once_witness :
  let c := run (HR := memRegister) (HD := acceptDesc)
             [PublishGauge "req-rate-for-topic-orders" 1%float]
             (scenarioExporter [] []) in
  (gaugeFromNameAndValue (HR := memRegister) "req-rate-for-topic-orders" 2%float c).2 = OK ∧
  calls (gaugeFromNameAndValue (HR := memRegister) "req-rate-for-topic-orders" 2%float c).1
    = calls c.
Proof.
  intros c.
  destruct (registration_at_most_once (HR := memRegister) (HD := acceptDesc))
    as (_ & H & _).
  destruct (H c "req-rate-for-topic-orders" 2%float) as (Hok & Hcalls & _).
  - reflexivity.
  - split; [exact Hok | exact Hcalls].
Defined.

(** C4 as stated fails at publishes that do reach the membership check
    and find the name in the set.  In the histogram path the publish of
    [outgoing-byte-rate-for-broker-8], after a cycle over
    [outgoing-byte-rate-for-broker-7] recorded
    [outgoing_byte_rate_histogram], returns at the check, yet it has
    created a collector and handed it to the registerer.  In the gauge
    path the publish of [req-rate-for-topic-payments], after that of
    [req-rate-for-topic-orders] recorded [req_rate], returns at the check,
    yet it has cached a label set and written the configured label map,
    which the label set cached for the first name reads. *)
Lemma dedup_hit_still_has_effects :
  (let h := sampleHistogram [10; 20; 30]%Z 20 30 in
   let c := run (HR := memRegister) (HD := acceptDesc)
              [Cycle [("outgoing-byte-rate-for-broker-7", h)]]
              (scenarioExporter [] []) in
   let out := histogramFromNameAndMetric (HR := memRegister) (HD := acceptDesc)
                "outgoing-byte-rate-for-broker-8" h [0.5%float; 0.95%float] c in
   let key := "sarama__outgoing-byte-rate-for-broker-8" in
   seen c "outgoing_byte_rate_histogram" = true ∧
   out.2 = OK ∧
   held out.1 key = None ∧
   customMetrics c !! key = None ∧
   Collect <$> customMetrics out.1 !! key = Some [] ∧
   calls out.1 = calls c ++ [prometheus.CustomCollectorC key] ∧
   promRegistry out.1 = promRegistry c ++ [prometheus.CustomCollectorC key]) ∧
  (let c := run (HR := memRegister) (HD := acceptDesc)
              [PublishGauge "req-rate-for-topic-orders" 1%float]
              (scenarioExporter [] []) in
   let out := gaugeFromNameAndValue (HR := memRegister)
                "req-rate-for-topic-payments" 2%float c in
   seen c "req_rate" = true ∧
   gauges c !! "req-rate-for-topic-payments" = None ∧
   out.2 = OK ∧
   labelsMap c !! "req-rate-for-topic-payments" = None ∧
   is_Some (labelsMap out.1 !! "req-rate-for-topic-payments") ∧
   deref c (labelsMap c !! "req-rate-for-topic-orders") !! "topic" = Some "orders" ∧
   deref out.1 (labelsMap out.1 !! "req-rate-for-topic-orders") !! "topic"
     = Some "payments").
Proof.
  split; intros; repeat apply conj; try (vm_compute; reflexivity).
  vm_compute. by eexists.
Qed.
